(** * Jump Point Search over a byte cost grid

    A shallow embedding of [jps_planner::JumpPointSearch]
    (ros/src/planner/graph_planner/src/jump_point_search.cpp):
    the forced-neighbour test, the recursive jump function and the
    best-first search loop of [plan], with the properties of the planner
    stated and proved over them.

    Conventions.
    - C++ [int] values are integers of [Z]; signed overflow is undefined
      behaviour in the source and is outside the model.
    - The cost grid [const unsigned char* costs_] is a [list Z]; a read at an
      index outside the list is undefined behaviour in the source and is the
      fault [OutOfBounds i] here, which stops the computation.
    - Recursion and the search loop take a fuel argument; the fuel handed to
      [jump] is the depth of the C++ call stack it may use. *)

From Stdlib Require Import ZArith List Bool Lia QArith Permutation.
Import ListNotations.
Local Open Scope Z_scope.

(** ** Results of a computation that may fault *)

Inductive result (A : Type) : Type :=
| Ok (a : A)
| OutOfBounds (i : Z)
| OutOfFuel.
Arguments Ok {A} a.
Arguments OutOfBounds {A} i.
Arguments OutOfFuel {A}.

Definition bind {A B : Type} (r : result A) (k : A -> result B) : result B :=
  match r with
  | Ok a => k a
  | OutOfBounds i => OutOfBounds i
  | OutOfFuel => OutOfFuel
  end.

Notation "x <- c1 ;; c2" := (bind c1 (fun x => c2))
  (at level 61, c1 at next level, right associativity).

(** ** Nodes *)

(** A search node. The source constructor is
    [Node(x, y, cost, h_cost, id, pid)]; its third argument (the accumulated
    cost) is read by nothing in jump_point_search.cpp and is left out.
    [h_cost] is [std::sqrt] of a sum of two squares in the source; the field
    holds that sum (the radicand), which orders nodes the same way. *)
Record Node : Type := mkNode {
  x : Z;
  y : Z;
  h_cost : Z;
  id : Z;
  pid : Z
}.

(** [Node(-1, -1, -1, -1, -1, -1)]: no jump point. *)
Definition sentinel : Node := mkNode (-1) (-1) (-1) (-1) (-1).

(** Modelled from the spec: [Node::operator+] is declared outside the given
    sources; a step along a motion adds the coordinates. The other fields of
    the sum are overwritten by [jump] before they are read. *)
Definition node_add (a b : Node) : Node :=
  mkNode (x a + x b) (y a + y b) 0 0 0.

(** Modelled from the spec: [Node::operator==] is declared outside the given
    sources; "Node equality and hashing depend only on id". *)
Definition node_eqb (a b : Node) : bool := id a =? id b.

(** ** The planner object *)

(** The fields of [GlobalPlanner] that the search reads: the grid size and
    the obstacle threshold parameters. [factor_] is a [double]; it is a
    rational here and the product [lethal_cost_ * factor_] is exact. *)
Record Planner : Type := mkPlanner {
  nx_ : Z;
  ny_ : Z;
  lethal_cost_ : Z;
  factor_ : Q
}.

(** Modelled from the spec: [ns_] is set by the base class constructor, which
    is outside the given sources; the number of cells is [nx * ny]. *)
Definition ns_ (p : Planner) : Z := nx_ p * ny_ p.

(** Modelled from the spec: [GlobalPlanner::grid2Index] is outside the given
    sources; "linear index, id = y*nx + x". *)
Definition grid2Index (p : Planner) (cx cy : Z) : Z := cx + nx_ p * cy.

(** An index of a cell of the grid: "any Node with id < 0 or id >= nx*ny is
    invalid". *)
Definition valid_id (p : Planner) (i : Z) : bool := (0 <=? i) && (i <? ns_ p).

(** The obstacle threshold [lethal_cost_ * factor_]. *)
Definition threshold (p : Planner) : Q := inject_Z (lethal_cost_ p) * factor_ p.

(** [c >= lethal_cost_ * factor_] for a byte [c]. *)
Definition lethal (p : Planner) (c : Z) : bool :=
  Qle_bool (threshold p) (inject_Z c).

(** ** Reading the cost grid *)

Definition read (costs : list Z) (i : Z) : option Z :=
  if i <? 0 then None else nth_error costs (Z.to_nat i).

(** [costs_[i] >= lethal_cost_ * factor_], faulting when [i] is not an index
    of the array. *)
Definition blocked (p : Planner) (costs : list Z) (i : Z) : result bool :=
  match read costs i with
  | Some c => Ok (lethal p c)
  | None => OutOfBounds i
  end.

(** ** detectForceNeighbor *)

(** One test of the source,
    [costs_[grid2Index(a)] >= t && costs_[grid2Index(b)] < t]:
    the second cell is read only when the first is an obstacle. *)
Definition forced_by (p : Planner) (costs : list Z) (a b : Z * Z) : result bool :=
  ba <- blocked p costs (grid2Index p (fst a) (snd a)) ;;
  if ba then
    bb <- blocked p costs (grid2Index p (fst b) (snd b)) ;;
    Ok (negb bb)
  else Ok false.

(** Two tests in sequence, [true] on the first that holds. *)
Definition forced_either (p : Planner) (costs : list Z)
    (a1 b1 a2 b2 : Z * Z) : result bool :=
  c1 <- forced_by p costs a1 b1 ;;
  if c1 then Ok true else forced_by p costs a2 b2.

Definition detectForceNeighbor (p : Planner) (costs : list Z)
    (point motion : Node) : result bool :=
  let x0 := x point in
  let y0 := y point in
  let x_dir := x motion in
  let y_dir := y motion in
  (* horizontal *)
  h <- (if negb (x_dir =? 0) && (y_dir =? 0)
        then forced_either p costs
               (x0, y0 + 1) (x0 + x_dir, y0 + 1)
               (x0, y0 - 1) (x0 + x_dir, y0 - 1)
        else Ok false) ;;
  if h then Ok true else
  (* vertical *)
  v <- (if (x_dir =? 0) && negb (y_dir =? 0)
        then forced_either p costs
               (x0 + 1, y0) (x0 + 1, y0 + y_dir)
               (x0 - 1, y0) (x0 - 1, y0 + y_dir)
        else Ok false) ;;
  if v then Ok true else
  (* diagonal *)
  d <- (if negb (x_dir =? 0) && negb (y_dir =? 0)
        then forced_either p costs
               (x0 - x_dir, y0) (x0 - x_dir, y0 + y_dir)
               (x0, y0 - y_dir) (x0 + x_dir, y0 - y_dir)
        else Ok false) ;;
  Ok d.

(** ** jump *)

(** The squared Euclidean distance between two cells (see [h_cost]). *)
Definition sqdist (a b : Node) : Z :=
  (x a - x b) * (x a - x b) + (y a - y b) * (y a - y b).

(** [new_point] as [jump] builds it from [point + motion]. *)
Definition step (p : Planner) (goal point motion : Node) : Node :=
  let s := node_add point motion in
  mkNode (x s) (y s) (sqdist s goal) (grid2Index p (x s) (y s)) (id point).

Fixpoint jump (fuel : nat) (p : Planner) (costs : list Z) (goal : Node)
    (point motion : Node) : result Node :=
  match fuel with
  | O => OutOfFuel
  | S fuel' =>
    let new_point := step p goal point motion in
    (* next node hit the boundary or obstacle *)
    if (id new_point <? 0) || (ns_ p <=? id new_point) then Ok sentinel else
    b <- blocked p costs (id new_point) ;;
    if b then Ok sentinel else
    (* goal found *)
    if node_eqb new_point goal then Ok new_point else
    (* diagonal *)
    d <- (if negb (x motion =? 0) && negb (y motion =? 0) then
            let x_dir := mkNode (x motion) 0 0 0 0 in
            let y_dir := mkNode 0 (y motion) 0 0 0 in
            jx <- jump fuel' p costs goal new_point x_dir ;;
            if negb (id jx =? -1) then Ok true else
            jy <- jump fuel' p costs goal new_point y_dir ;;
            Ok (negb (id jy =? -1))
          else Ok false) ;;
    if d then Ok new_point else
    (* exists forced neighbor *)
    f <- detectForceNeighbor p costs new_point motion ;;
    if f then Ok new_point else jump fuel' p costs goal new_point motion
  end.

(** The body of [jump] with its recursive calls made through [rec]: one
    level of the recursion, [jump (S fuel)] being [jump_from (jump fuel)]. *)
Definition jump_from (rec : Node -> Node -> result Node) (p : Planner)
    (costs : list Z) (goal : Node) (point motion : Node) : result Node :=
  let new_point := step p goal point motion in
  if (id new_point <? 0) || (ns_ p <=? id new_point) then Ok sentinel else
  b <- blocked p costs (id new_point) ;;
  if b then Ok sentinel else
  if node_eqb new_point goal then Ok new_point else
  d <- (if negb (x motion =? 0) && negb (y motion =? 0) then
          let x_dir := mkNode (x motion) 0 0 0 0 in
          let y_dir := mkNode 0 (y motion) 0 0 0 in
          jx <- rec new_point x_dir ;;
          if negb (id jx =? -1) then Ok true else
          jy <- rec new_point y_dir ;;
          Ok (negb (id jy =? -1))
        else Ok false) ;;
  if d then Ok new_point else
  f <- detectForceNeighbor p costs new_point motion ;;
  if f then Ok new_point else rec new_point motion.

(** ** The open and closed lists *)

(** Modelled from the spec: [compare_coordinates] and [NodeIdAsHash], the
    equality and hash of the closed [std::unordered_set], are declared outside
    the given sources; the set is "keyed by coordinate identity only", the
    identity being [id]. The set is the list of its elements, newest first. *)
Definition closed_find (closed : list Node) (i : Z) : option Node :=
  find (fun n => id n =? i) closed.

Definition closed_mem (closed : list Node) (n : Node) : bool :=
  match closed_find closed (id n) with Some _ => true | None => false end.

(** [closed_list.insert(n)]: an element with the same key is kept. *)
Definition closed_insert (closed : list Node) (n : Node) : list Node :=
  if closed_mem closed n then closed else n :: closed.

(** Modelled from the spec: [GlobalPlanner::getMotion] is outside the given
    sources; "8 fixed unit vectors (4 axis-aligned, 4 diagonal)". *)
Definition getMotion : list Node :=
  [ mkNode 0 1 0 0 0; mkNode 1 0 0 0 0; mkNode 0 (-1) 0 0 0; mkNode (-1) 0 0 0 0;
    mkNode 1 1 0 0 0; mkNode 1 (-1) 0 0 0; mkNode (-1) 1 0 0 0; mkNode (-1) (-1) 0 0 0 ].

(** ** Path reconstruction *)

(** Modelled from the spec: [GlobalPlanner::_convertClosedListToPath] is
    outside the given sources. "Follow parent links backward, looking up each
    ancestor node by id inside the Closed Set, until the start node
    (identified by having no valid parent) is reached. Produces the coordinate
    sequence in start->goal order. Fails (empty result) if a parent id cannot
    be found in the Closed Set." A walk longer than the closed set has met a
    cell twice and would never end; it runs out of fuel. *)
Fixpoint backtrack (fuel : nat) (p : Planner) (closed : list Node)
    (current : Node) (acc : list Node) : result (list Node) :=
  if negb (valid_id p (pid current)) then Ok (current :: acc) else
  match fuel with
  | O => OutOfFuel
  | S fuel' =>
    match closed_find closed (pid current) with
    | None => Ok []
    | Some parent => backtrack fuel' p closed parent (current :: acc)
    end
  end.

Definition _convertClosedListToPath (p : Planner) (closed : list Node)
    (start goal : Node) : result (list Node) :=
  match closed_find closed (id goal) with
  | None => Ok []
  | Some g => backtrack (length closed) p closed g []
  end.

(** [path] is the line of parents of [n] in the closed list, from a node
    without a valid parent down to [n]. *)
Inductive ancestry (p : Planner) (closed : list Node) : Node -> list Node -> Prop :=
| ancestry_root n :
    valid_id p (pid n) = false -> ancestry p closed n [n]
| ancestry_child n parent path :
    valid_id p (pid n) = true ->
    closed_find closed (pid n) = Some parent ->
    ancestry p closed parent path ->
    ancestry p closed n (path ++ [n]).

(** Each cell of the path is the parent of the next. *)
Fixpoint linked (path : list Node) : Prop :=
  match path with
  | a :: (b :: _) as rest => pid b = id a /\ linked rest
  | _ => True
  end.

(** ** plan *)

Record state : Type := mkState {
  open_list : list Node;
  closed_list : list Node;
  expand : list Node
}.

(** What one pass through the body of the main loop leaves behind. *)
Inductive progress : Type :=
| Continue (st : state)
| Return (found : bool) (path : list Node) (expand : list Node).

Section Search.

(** Modelled from the spec: [compare_cost], the order of the open
    [std::priority_queue], is declared outside the given sources, and the
    order among nodes of equal cost is left open by the spec. [top]
    followed by [pop] on the non-empty queue [n :: l] is [pop_top n l]: the
    node taken and the queue left. *)
Variable pop_top : Node -> list Node -> Node * list Node.

Hypothesis pop_top_perm : forall n l,
  Permutation (n :: l) (fst (pop_top n l) :: snd (pop_top n l)).

Hypothesis pop_top_min : forall n l m,
  In m (n :: l) -> h_cost (fst (pop_top n l)) <= h_cost m.

Variable fuel_jump : nat.
Variable p : Planner.
Variable costs : list Z.
Variables start goal : Node.

(** The first [for] loop of an expansion: the jump points of [current]
    that exist and are not closed, in the order of the motions. *)
Fixpoint explore (current : Node) (closed : list Node) (motions : list Node)
    : result (list Node) :=
  match motions with
  | [] => Ok []
  | motion :: motions' =>
    jp <- jump fuel_jump p costs goal current motion ;;
    jp_list <- explore current closed motions' ;;
    if negb (id jp =? -1) && negb (closed_mem closed jp)
    then Ok (mkNode (x jp) (y jp) (sqdist jp goal) (id jp) (id current) :: jp_list)
    else Ok jp_list
  end.

(** The second [for] loop: push until the goal has been pushed. *)
Fixpoint push_all (jp_list : list Node) (open expanded : list Node)
    : list Node * list Node :=
  match jp_list with
  | [] => (open, expanded)
  | jp :: jp_list' =>
    if node_eqb jp goal then (open ++ [jp], expanded ++ [jp])
    else push_all jp_list' (open ++ [jp]) (expanded ++ [jp])
  end.

(** The body of [while (!open_list.empty())], and what follows the loop
    when the queue is empty. *)
Definition iteration (st : state) : result progress :=
  match open_list st with
  | [] => Ok (Return false [] (expand st))
  | n :: l =>
    let (current, rest) := pop_top n l in
    if closed_mem (closed_list st) current then
      Ok (Continue (mkState rest (closed_list st) (expand st)))
    else if node_eqb current goal then
      path <- _convertClosedListToPath p
                (closed_insert (closed_list st) current) start goal ;;
      Ok (Return true path (expand st))
    else
      jp_list <- explore current (closed_list st) getMotion ;;
      let (open', expand') := push_all jp_list rest (expand st) in
      Ok (Continue (mkState open' (closed_insert (closed_list st) current) expand'))
  end.

Fixpoint search (fuel : nat) (st : state) : result (bool * list Node * list Node) :=
  match fuel with
  | O => OutOfFuel
  | S fuel' =>
    r <- iteration st ;;
    match r with
    | Continue st' => search fuel' st'
    | Return found path e => Ok (found, path, e)
    end
  end.

Definition initial : state := mkState [start] [] [start].

Definition plan (fuel : nat) : result (bool * list Node * list Node) :=
  search fuel initial.

(** The nodes the loop expands (explores the neighbours of) during its
    first [fuel] passes from [st], in the order of the passes. *)
Fixpoint expansions (fuel : nat) (st : state) : list Node :=
  match fuel with
  | O => []
  | S fuel' =>
    match open_list st, iteration st with
    | n :: l, Ok (Continue st') =>
      let current := fst (pop_top n l) in
      if closed_mem (closed_list st) current then expansions fuel' st'
      else current :: expansions fuel' st'
    | _, _ => []
    end
  end.

(** What the loop keeps true of its lists: the closed nodes have distinct,
    valid ids, none is the goal, and each has its line of parents back to
    the start inside the closed list; the open nodes have a valid id and
    are the start itself or the child of a closed node. *)
Definition search_invariant (st : state) : Prop :=
  NoDup (map id (closed_list st)) /\
  (forall n, In n (closed_list st) ->
     valid_id p (id n) = true /\ node_eqb n goal = false /\
     exists path, ancestry p (closed_list st) n path /\
                  hd_error path = Some start /\ linked path /\
                  (length path <= length (closed_list st))%nat) /\
  (forall n, In n (open_list st) ->
     valid_id p (id n) = true /\
     (n = start \/
      (valid_id p (pid n) = true /\
       exists parent, closed_find (closed_list st) (pid n) = Some parent))).

(** The states the main loop passes through. *)
Inductive reachable : state -> Prop :=
| reach_initial : reachable initial
| reach_next st st' :
    reachable st -> iteration st = Ok (Continue st') -> reachable st'.

(** A bound on the passes the loop has left: every pass pops one node, and
    an expansion, which pushes eight at most, uses up one of the cells not
    yet closed. *)
Definition passes_left (st : state) : Z :=
  Z.of_nat (length (open_list st))
  + 8 * (ns_ p - Z.of_nat (length (closed_list st))).

(** The two ways [plan] can end. Success: the goal was popped from the
    open list, and the path runs from the start to the popped goal, each
    cell the parent of the next. *)
Definition goal_popped (found : bool) (path : list Node) : Prop :=
  found = true /\
  exists pre g,
    path = pre ++ [g] /\ node_eqb g goal = true /\
    hd_error path = Some start /\ linked path /\
    exists st n l,
      reachable st /\ open_list st = n :: l /\
      fst (pop_top n l) = g /\ closed_mem (closed_list st) g = false.

(** Failure: the open list ran empty and no node popped was the goal. *)
Definition open_exhausted (found : bool) (path : list Node) : Prop :=
  found = false /\ path = [] /\
  exists st,
    reachable st /\ open_list st = [] /\
    forall n, In n (closed_list st) -> node_eqb n goal = false.

End Search.

(** A queue that takes the first node of least [h_cost]. *)
Fixpoint pop_min (n : Node) (l : list Node) : Node * list Node :=
  match l with
  | [] => (n, [])
  | m :: l' =>
    let (best, rest) := pop_min m l' in
    if h_cost n <=? h_cost best then (n, l) else (best, n :: rest)
  end.

(** ** Cells, grids and motions *)

Definition in_grid (p : Planner) (cx cy : Z) : Prop :=
  0 <= cx < nx_ p /\ 0 <= cy < ny_ p.

(** A cell with all eight neighbours inside the grid. *)
Definition interior (p : Planner) (cx cy : Z) : Prop :=
  1 <= cx <= nx_ p - 2 /\ 1 <= cy <= ny_ p - 2.

(** One of the eight unit vectors. *)
Definition unit_motion (m : Node) : Prop :=
  -1 <= x m <= 1 /\ -1 <= y m <= 1 /\ (x m <> 0 \/ y m <> 0).

(** The array holds one byte per cell. *)
Definition grid_costs (p : Planner) (costs : list Z) : Prop :=
  Z.of_nat (length costs) = ns_ p.

(** The cell is an obstacle: it can be read and its cost is at least
    [lethal_cost * inflation_factor]. *)
Definition blocked_at (p : Planner) (costs : list Z) (cx cy : Z) : Prop :=
  exists c, read costs (grid2Index p cx cy) = Some c /\ (threshold p <= inject_Z c)%Q.

(** The cell is open: it can be read and its cost is below the threshold. *)
Definition open_at (p : Planner) (costs : list Z) (cx cy : Z) : Prop :=
  exists c, read costs (grid2Index p cx cy) = Some c /\ (inject_Z c < threshold p)%Q.

(** The six conditions of the forced-neighbour rule, two for each kind of
    motion, as the specification words them. *)
Definition forced_neighbor_rule (p : Planner) (costs : list Z) (cx cy dx dy : Z) : Prop :=
  (dx <> 0 /\ dy = 0 /\
     ((blocked_at p costs cx (cy + 1) /\ open_at p costs (cx + dx) (cy + 1)) \/
      (blocked_at p costs cx (cy - 1) /\ open_at p costs (cx + dx) (cy - 1))))
  \/
  (dx = 0 /\ dy <> 0 /\
     ((blocked_at p costs (cx + 1) cy /\ open_at p costs (cx + 1) (cy + dy)) \/
      (blocked_at p costs (cx - 1) cy /\ open_at p costs (cx - 1) (cy + dy))))
  \/
  (dx <> 0 /\ dy <> 0 /\
     ((blocked_at p costs (cx - dx) cy /\ open_at p costs (cx - dx) (cy + dy)) \/
      (blocked_at p costs cx (cy - dy) /\ open_at p costs (cx + dx) (cy - dy)))).

(** The cells whose index [detectForceNeighbor] computes for a motion: the
    arguments of its [grid2Index] calls, in the order of the source. *)
Definition probed_cells (point motion : Node) : list (Z * Z) :=
  let x0 := x point in
  let y0 := y point in
  let x_dir := x motion in
  let y_dir := y motion in
  (if negb (x_dir =? 0) && (y_dir =? 0)
   then [(x0, y0 + 1); (x0 + x_dir, y0 + 1); (x0, y0 - 1); (x0 + x_dir, y0 - 1)]
   else []) ++
  (if (x_dir =? 0) && negb (y_dir =? 0)
   then [(x0 + 1, y0); (x0 + 1, y0 + y_dir); (x0 - 1, y0); (x0 - 1, y0 + y_dir)]
   else []) ++
  (if negb (x_dir =? 0) && negb (y_dir =? 0)
   then [(x0 - x_dir, y0); (x0 - x_dir, y0 + y_dir); (x0, y0 - y_dir); (x0 + x_dir, y0 - y_dir)]
   else []).


(** What [jump] returns when it returns a node: the sentinel, or a cell on
    the ray from [point] along the motion whose index passed the bounds test
    and whose cost was read below the threshold. *)
Definition jump_point (p : Planner) (costs : list Z) (point m r : Node) : Prop :=
  valid_id p (id r) = true /\
  blocked p costs (id r) = Ok false /\
  id r = grid2Index p (x r) (y r) /\
  exists k, 1 <= k /\ x r = x point + k * x m /\ y r = y point + k * y m.

(** The border cells of the grid are obstacles, as the wrapper's
    [_outlineMap] leaves them. *)
Definition outlined (p : Planner) (costs : list Z) : Prop :=
  forall cx cy, in_grid p cx cy -> ~ interior p cx cy ->
                blocked p costs (grid2Index p cx cy) = Ok true.

(** The number of steps along one axis before the border is reached. *)
Definition room_along (size pos dir : Z) : Z :=
  if 0 <? dir then size - 1 - pos else if dir <? 0 then pos else 0.

(** A bound on the steps a walk from [point] along [m] makes inside the
    outlined grid, the two axes added. *)
Definition room (p : Planner) (point m : Node) : Z :=
  room_along (nx_ p) (x point) (x m) + room_along (ny_ p) (y point) (y m).

(** ** Fixtures *)

(** A cell as the caller builds it: no parent. *)
Definition cell (p : Planner) (cx cy : Z) : Node :=
  mkNode cx cy 0 (grid2Index p cx cy) (-1).

Definition direction (dx dy : Z) : Node := mkNode dx dy 0 0 0.

(** [LETHAL_COST] of costmap_2d with a quarter as inflation factor. *)
Definition planner (nx ny : Z) : Planner := mkPlanner nx ny 253 (1 # 4).

(** The notch: a 3x3 grid, open but for the cell (1,2). *)
Definition notch_grid : list Z := [0; 0; 0;  0; 0; 0;  0; 254; 0].

(** The 3x3 grid, open but for the cell (2,1). *)
Definition side_grid : list Z := [0; 0; 0;  0; 0; 254;  0; 0; 0].

(** A 3x4 grid, open but for the cell (1,2). *)
Definition wrap_grid : list Z := [0; 0; 0;  0; 0; 0;  0; 254; 0;  0; 0; 0].

(** A 3x6 grid: the cells of index 0 to 13 open, the last four obstacles. *)
Definition long_grid : list Z := repeat 0 14 ++ repeat 254 4.

(** One column of five cells, only the middle one open. *)
Definition column_grid : list Z := [254; 254; 0; 254; 254].

(** One column of six cells, the third and the last open. *)
Definition lane_grid : list Z := [254; 254; 0; 254; 254; 0].

(** A 2x3 grid whose middle row is a wall from side to side. *)
Definition split_grid : list Z := [0; 0; 254; 254; 0; 0].

(** A 5x5 grid whose border cells are obstacles and whose inner 3x3 block
    is open, as the wrapper's map outlining leaves it. *)
Definition walled_grid : list Z :=
  [254; 254; 254; 254; 254;
   254;   0;   0;   0; 254;
   254;   0;   0;   0; 254;
   254;   0;   0;   0; 254;
   254; 254; 254; 254; 254].

(** ** Runs of open cells *)

(** The [k] cells that follow [point] along [m] all have an index of the
    grid and a cost read below the threshold. *)
Definition clear_run (p : Planner) (costs : list Z) (point m : Node) (k : Z) : Prop :=
  forall j, 1 <= j <= k ->
    valid_id p (grid2Index p (x point + j * x m) (y point + j * y m)) = true /\
    blocked p costs (grid2Index p (x point + j * x m) (y point + j * y m)) = Ok false.

(** [b] lies on a ray from [a] along one of the eight motions, over open
    cells. *)
Definition straight_run (p : Planner) (costs : list Z) (a b : Node) : Prop :=
  exists m k, In m getMotion /\ 1 <= k /\
    x b = x a + k * x m /\ y b = y a + k * y m /\ clear_run p costs a m k.

(** Each cell of the path is joined to the next by a straight run. *)
Fixpoint runs (p : Planner) (costs : list Z) (path : list Node) : Prop :=
  match path with
  | a :: (b :: _) as rest => straight_run p costs a b /\ runs p costs rest
  | _ => True
  end.

(** A closed list as the loop builds it: each node was new when it was
    added, and a node with a valid parent id found its parent among the
    nodes closed before it. *)
Inductive parents_older (p : Planner) : list Node -> Prop :=
| parents_older_nil : parents_older p []
| parents_older_cons n closed :
    parents_older p closed ->
    closed_mem closed n = false ->
    (valid_id p (pid n) = true ->
     exists parent, closed_find closed (pid n) = Some parent) ->
    parents_older p (n :: closed).

(** * Properties *)

(** ** Results and reads *)

Lemma bind_Ok {A B : Type} (r : result A) (k : A -> result B) (b : B) :
  bind r k = Ok b -> exists a, r = Ok a /\ k a = Ok b.
Proof. destruct r; simpl; intros H; try discriminate. eauto. Qed.

Lemma bind_OutOfBounds {A B : Type} (r : result A) (k : A -> result B) (i : Z) :
  bind r k = OutOfBounds i ->
  r = OutOfBounds i \/ exists a, r = Ok a /\ k a = OutOfBounds i.
Proof.
  destruct r; simpl; intros H; try discriminate.
  - right. eauto.
  - left. congruence.
Qed.

Lemma read_Some_range costs i c :
  read costs i = Some c -> 0 <= i < Z.of_nat (length costs).
Proof.
  unfold read. destruct (i <? 0) eqn:Hi; [discriminate|].
  intros H. apply Z.ltb_ge in Hi.
  assert (Hn : nth_error costs (Z.to_nat i) <> None) by congruence.
  apply nth_error_Some in Hn. lia.
Qed.

Lemma read_in_range costs i :
  0 <= i < Z.of_nat (length costs) -> exists c, read costs i = Some c.
Proof.
  intros [H0 H1]. unfold read.
  destruct (i <? 0) eqn:Hi; [apply Z.ltb_lt in Hi; lia|].
  destruct (nth_error costs (Z.to_nat i)) eqn:Hn; eauto.
  apply nth_error_None in Hn. lia.
Qed.

Lemma lethal_true p c : lethal p c = true <-> (threshold p <= inject_Z c)%Q.
Proof. unfold lethal. apply Qle_bool_iff. Qed.

Lemma lethal_false p c : lethal p c = false <-> (inject_Z c < threshold p)%Q.
Proof.
  split; intros H.
  - apply Qnot_le_lt. intros Hle. apply lethal_true in Hle. congruence.
  - destruct (lethal p c) eqn:E; [|reflexivity].
    apply lethal_true in E. exfalso. exact (Qlt_not_le _ _ H E).
Qed.

Lemma blocked_true p costs cx cy :
  blocked p costs (grid2Index p cx cy) = Ok true <-> blocked_at p costs cx cy.
Proof.
  unfold blocked, blocked_at. split.
  - destruct (read costs (grid2Index p cx cy)) as [c|]; [|discriminate].
    intros H. exists c. split; [reflexivity|]. apply lethal_true. congruence.
  - intros [c [-> H]]. apply lethal_true in H. now rewrite H.
Qed.

Lemma blocked_false p costs cx cy :
  blocked p costs (grid2Index p cx cy) = Ok false <-> open_at p costs cx cy.
Proof.
  unfold blocked, open_at. split.
  - destruct (read costs (grid2Index p cx cy)) as [c|]; [|discriminate].
    intros H. exists c. split; [reflexivity|]. apply lethal_false. congruence.
  - intros [c [-> H]]. apply lethal_false in H. now rewrite H.
Qed.

Lemma blocked_not_open p costs cx cy :
  blocked_at p costs cx cy -> open_at p costs cx cy -> False.
Proof.
  intros Hb Ho. apply blocked_true in Hb. apply blocked_false in Ho. congruence.
Qed.

(** ** The forced-neighbour test *)

Lemma forced_by_spec p costs ax ay bx by_ r :
  forced_by p costs (ax, ay) (bx, by_) = Ok r ->
  (r = true <-> blocked_at p costs ax ay /\ open_at p costs bx by_).
Proof.
  unfold forced_by. simpl. intros H.
  apply bind_Ok in H as [ba [Ha H]]. destruct ba.
  - apply bind_Ok in H as [bb [Hb H]]. injection H as <-.
    apply blocked_true in Ha. destruct bb; simpl.
    + apply blocked_true in Hb. split; [discriminate|].
      intros [_ Ho]. exfalso. eapply blocked_not_open; eauto.
    + apply blocked_false in Hb. tauto.
  - injection H as <-. apply blocked_false in Ha. split; [discriminate|].
    intros [Hb _]. exfalso. eapply blocked_not_open; eauto.
Qed.

Lemma forced_either_spec p costs a1x a1y b1x b1y a2x a2y b2x b2y r :
  forced_either p costs (a1x, a1y) (b1x, b1y) (a2x, a2y) (b2x, b2y) = Ok r ->
  (r = true <->
   (blocked_at p costs a1x a1y /\ open_at p costs b1x b1y) \/
   (blocked_at p costs a2x a2y /\ open_at p costs b2x b2y)).
Proof.
  unfold forced_either. intros H.
  apply bind_Ok in H as [c1 [H1 H]].
  apply forced_by_spec in H1. destruct c1.
  - injection H as <-. split; [intros _; left; now apply H1 | reflexivity].
  - apply forced_by_spec in H. split.
    + intros Hr. right. now apply H.
    + intros [Hc|Hc]; [apply H1 in Hc; discriminate | now apply H].
Qed.


Lemma detectForceNeighbor_spec p costs point m b :
  detectForceNeighbor p costs point m = Ok b ->
  (b = true <-> forced_neighbor_rule p costs (x point) (y point) (x m) (y m)).
Proof.
  unfold detectForceNeighbor, forced_neighbor_rule. intros H. revert H.
  destruct (x m =? 0) eqn:Ex; destruct (y m =? 0) eqn:Ey; simpl;
    [ apply Z.eqb_eq in Ex | apply Z.eqb_eq in Ex
    | apply Z.eqb_neq in Ex | apply Z.eqb_neq in Ex ];
    [ apply Z.eqb_eq in Ey | apply Z.eqb_neq in Ey
    | apply Z.eqb_eq in Ey | apply Z.eqb_neq in Ey ]; intros H.
  - injection H as <-. split; [discriminate|]. intros [Hc|[Hc|Hc]]; tauto.
  - apply bind_Ok in H as [v [Hv H]].
    apply forced_either_spec in Hv.
    assert (b = v) by (destruct v; simpl in H; congruence). subst v.
    rewrite Hv. split; [intros Hc; right; left; tauto|].
    intros [Hc|[Hc|Hc]]; tauto.
  - apply bind_Ok in H as [h [Hh H]].
    apply forced_either_spec in Hh.
    assert (b = h) by (destruct h; simpl in H; congruence). subst h.
    rewrite Hh. split; [intros Hc; left; tauto|].
    intros [Hc|[Hc|Hc]]; tauto.
  - apply bind_Ok in H as [d [Hd H]].
    apply forced_either_spec in Hd.
    injection H as <-.
    rewrite Hd. split; [intros Hc; right; right; tauto|].
    intros [Hc|[Hc|Hc]]; tauto.
Qed.

(** ** Linear indices and coordinates *)

Lemma valid_id_range p i : valid_id p i = true <-> 0 <= i < ns_ p.
Proof. unfold valid_id. rewrite andb_true_iff, Z.leb_le, Z.ltb_lt. tauto. Qed.

(** The bounds test of [jump], in terms of [valid_id]. *)
Lemma bounds_test p i : (i <? 0) || (ns_ p <=? i) = negb (valid_id p i).
Proof.
  unfold valid_id.
  destruct (Z.ltb_spec i 0), (Z.leb_spec 0 i),
           (Z.leb_spec (ns_ p) i), (Z.ltb_spec i (ns_ p));
    simpl; try reflexivity; lia.
Qed.

Lemma in_grid_valid_id p cx cy :
  in_grid p cx cy -> valid_id p (grid2Index p cx cy) = true.
Proof.
  unfold in_grid, grid2Index. intros [Hx Hy].
  apply valid_id_range. unfold ns_. nia.
Qed.


Lemma interior_in_grid p cx cy : interior p cx cy -> in_grid p cx cy.
Proof. unfold interior, in_grid. lia. Qed.

Lemma interior_neighbour p cx cy dx dy :
  interior p cx cy -> -1 <= dx <= 1 -> -1 <= dy <= 1 ->
  in_grid p (cx + dx) (cy + dy).
Proof. unfold interior, in_grid. lia. Qed.

Lemma in_grid_readable p costs cx cy :
  grid_costs p costs -> in_grid p cx cy ->
  exists c, read costs (grid2Index p cx cy) = Some c.
Proof.
  intros Hlen Hin. apply read_in_range. rewrite Hlen.
  apply valid_id_range. now apply in_grid_valid_id.
Qed.

(** ** Which cells the forced-neighbour test reads *)


Lemma blocked_not_OutOfFuel p costs i : blocked p costs i <> OutOfFuel.
Proof. unfold blocked. destruct (read costs i); discriminate. Qed.

Lemma blocked_readable p costs i c :
  read costs i = Some c -> blocked p costs i = Ok (lethal p c).
Proof. unfold blocked. now intros ->. Qed.



Lemma forced_by_readable p costs a b :
  (forall c, In c [a; b] -> exists v, read costs (grid2Index p (fst c) (snd c)) = Some v) ->
  exists r, forced_by p costs a b = Ok r.
Proof.
  intros H. unfold forced_by.
  destruct (H a) as [va Ha]; [simpl; auto|].
  destruct (H b) as [vb Hb]; [simpl; auto|].
  rewrite (blocked_readable _ _ _ _ Ha), (blocked_readable _ _ _ _ Hb). simpl.
  destruct (lethal p va); simpl; eauto.
Qed.

Lemma forced_either_readable p costs a1 b1 a2 b2 :
  (forall c, In c [a1; b1; a2; b2] ->
             exists v, read costs (grid2Index p (fst c) (snd c)) = Some v) ->
  exists r, forced_either p costs a1 b1 a2 b2 = Ok r.
Proof.
  intros H. unfold forced_either.
  destruct (forced_by_readable p costs a1 b1) as [r1 ->];
    [intros c Hc; apply H; simpl in *; tauto|].
  simpl. destruct r1; [eauto|].
  apply forced_by_readable. intros c Hc. apply H. simpl in *. tauto.
Qed.


Lemma detectForceNeighbor_readable p costs point m :
  (forall c, In c (probed_cells point m) ->
             exists v, read costs (grid2Index p (fst c) (snd c)) = Some v) ->
  exists b, detectForceNeighbor p costs point m = Ok b.
Proof.
  unfold detectForceNeighbor, probed_cells.
  destruct (x m =? 0), (y m =? 0); simpl; intros H; eauto.
  - destruct (forced_either_readable p costs
                (x point + 1, y point) (x point + 1, y point + y m)
                (x point - 1, y point) (x point - 1, y point + y m)) as [r ->];
      [exact H|]. destruct r; simpl; eauto.
  - destruct (forced_either_readable p costs
                (x point, y point + 1) (x point + x m, y point + 1)
                (x point, y point - 1) (x point + x m, y point - 1)) as [r ->];
      [exact H|]. destruct r; simpl; eauto.
  - destruct (forced_either_readable p costs
                (x point - x m, y point) (x point - x m, y point + y m)
                (x point, y point - y m) (x point + x m, y point - y m)) as [r ->];
      [exact H|]. simpl; eauto.
Qed.

Lemma detectForceNeighbor_not_OutOfFuel p costs point m :
  detectForceNeighbor p costs point m <> OutOfFuel.
Proof.
  assert (Hby : forall a b, forced_by p costs a b <> OutOfFuel).
  { intros a b. unfold forced_by.
    destruct (blocked p costs (grid2Index p (fst a) (snd a))) as [[]| |] eqn:Ea;
      simpl; try discriminate.
    - destruct (blocked p costs (grid2Index p (fst b) (snd b))) as [[]| |] eqn:Eb;
        simpl; try discriminate. now apply blocked_not_OutOfFuel in Eb.
    - now apply blocked_not_OutOfFuel in Ea. }
  assert (He : forall a1 b1 a2 b2, forced_either p costs a1 b1 a2 b2 <> OutOfFuel).
  { intros a1 b1 a2 b2. unfold forced_either.
    destruct (forced_by p costs a1 b1) as [[]| |] eqn:E1; simpl; try discriminate.
    - apply Hby.
    - now apply Hby in E1. }
  unfold detectForceNeighbor.
  destruct (x m =? 0), (y m =? 0); simpl; try discriminate.
  - match goal with |- context [forced_either ?a ?b ?c ?d ?e ?f] =>
      destruct (forced_either a b c d e f) as [[]| |] eqn:E end;
      simpl; try discriminate. now apply He in E.
  - match goal with |- context [forced_either ?a ?b ?c ?d ?e ?f] =>
      destruct (forced_either a b c d e f) as [[]| |] eqn:E end;
      simpl; try discriminate. now apply He in E.
  - match goal with |- context [forced_either ?a ?b ?c ?d ?e ?f] =>
      destruct (forced_either a b c d e f) as [[]| |] eqn:E end;
      simpl; try discriminate. now apply He in E.
Qed.

Lemma probed_cells_near point m c :
  In c (probed_cells point m) -> -1 <= x m <= 1 -> -1 <= y m <= 1 ->
  exists dx dy, c = (x point + dx, y point + dy) /\ -1 <= dx <= 1 /\ -1 <= dy <= 1.
Proof.
  unfold probed_cells. intros Hc Hx Hy.
  destruct (x m =? 0) eqn:Ex, (y m =? 0) eqn:Ey; simpl in Hc;
    repeat (destruct Hc as [<-|Hc]); try contradiction.
  all: try (exists 1, 0; split; [f_equal; lia | lia]).
  all: try (exists (-1), 0; split; [f_equal; lia | lia]).
  all: try (exists 0, 1; split; [f_equal; lia | lia]).
  all: try (exists 0, (-1); split; [f_equal; lia | lia]).
  all: try (exists 1, (y m); split; [f_equal; lia | lia]).
  all: try (exists (-1), (y m); split; [f_equal; lia | lia]).
  all: try (exists (x m), 1; split; [f_equal; lia | lia]).
  all: try (exists (x m), (-1); split; [f_equal; lia | lia]).
  all: try (exists (- x m), 0; split; [f_equal; lia | lia]).
  all: try (exists (- x m), (y m); split; [f_equal; lia | lia]).
  all: try (exists 0, (- y m); split; [f_equal; lia | lia]).
  all: try (exists (x m), (- y m); split; [f_equal; lia | lia]).
Qed.

Lemma interior_probed_in_grid p point m c :
  interior p (x point) (y point) -> unit_motion m ->
  In c (probed_cells point m) -> in_grid p (fst c) (snd c).
Proof.
  intros Hint (Hx & Hy & _) Hc.
  destruct (probed_cells_near _ _ _ Hc Hx Hy) as (dx & dy & -> & Hdx & Hdy).
  simpl. now apply interior_neighbour.
Qed.

Lemma detectForceNeighbor_interior p costs point m :
  grid_costs p costs -> interior p (x point) (y point) -> unit_motion m ->
  exists b, detectForceNeighbor p costs point m = Ok b.
Proof.
  intros Hlen Hint Hm. apply detectForceNeighbor_readable.
  intros c Hc. apply in_grid_readable; [assumption|].
  eapply interior_probed_in_grid; eauto.
Qed.







(** ** The jump function *)

Lemma jump_S fuel p costs goal point m :
  jump (S fuel) p costs goal point m
  = jump_from (jump fuel p costs goal) p costs goal point m.
Proof. reflexivity. Qed.

Lemma jump_from_mono (rec1 rec2 : Node -> Node -> result Node) p costs goal :
  (forall a b r, rec1 a b = r -> r <> OutOfFuel -> rec2 a b = r) ->
  forall point m r,
    jump_from rec1 p costs goal point m = r -> r <> OutOfFuel ->
    jump_from rec2 p costs goal point m = r.
Proof.
  intros Hrec point m r. unfold jump_from. rewrite bounds_test.
  destruct (valid_id p (id (step p goal point m))); cbn [negb]; [|auto].
  destruct (blocked p costs (id (step p goal point m))) as [[]| |]; simpl; auto.
  destruct (node_eqb (step p goal point m) goal); auto.
  destruct (negb (x m =? 0) && negb (y m =? 0)); simpl.
  - destruct (rec1 (step p goal point m) (mkNode (x m) 0 0 0 0)) as [jx| |] eqn:Ex;
      simpl; intros H Hr; try congruence.
    + rewrite (Hrec _ _ _ Ex) by discriminate. simpl.
      destruct (negb (id jx =? -1)); simpl in *; [assumption|].
      destruct (rec1 (step p goal point m) (mkNode 0 (y m) 0 0 0)) as [jy| |] eqn:Ey;
        simpl in *; try congruence.
      * rewrite (Hrec _ _ _ Ey) by discriminate. simpl.
        destruct (negb (id jy =? -1)); [assumption|].
        destruct (detectForceNeighbor p costs (step p goal point m) m) as [[]| |];
          simpl in *; auto.
      * rewrite (Hrec _ _ _ Ey) by discriminate. assumption.
    + rewrite (Hrec _ _ _ Ex) by discriminate. assumption.
  - destruct (detectForceNeighbor p costs (step p goal point m) m) as [[]| |];
      simpl; auto.
Qed.

Lemma jump_fuel_S fuel p costs goal :
  forall point m r,
    jump fuel p costs goal point m = r -> r <> OutOfFuel ->
    jump (S fuel) p costs goal point m = r.
Proof.
  induction fuel as [|fuel IH]; intros point m r H Hr.
  - simpl in H. congruence.
  - rewrite jump_S in H. rewrite jump_S.
    eapply jump_from_mono; eauto.
Qed.

Lemma jump_fuel_le fuel fuel' p costs goal point m r :
  (fuel <= fuel')%nat ->
  jump fuel p costs goal point m = r -> r <> OutOfFuel ->
  jump fuel' p costs goal point m = r.
Proof.
  intros Hle Hj Hr. induction Hle; [assumption|].
  apply jump_fuel_S; auto.
Qed.

Lemma step_jump_point p costs goal point m :
  valid_id p (id (step p goal point m)) = true ->
  blocked p costs (id (step p goal point m)) = Ok false ->
  jump_point p costs point m (step p goal point m).
Proof.
  intros Hv Hb. unfold jump_point. split; [|split; [|split]].
  - assumption.
  - assumption.
  - reflexivity.
  - exists 1. unfold step, node_add. cbn [x y]. lia.
Qed.

Lemma jump_point_next p costs goal point m r :
  jump_point p costs (step p goal point m) m r -> jump_point p costs point m r.
Proof.
  unfold jump_point. intros (Hv & Hb & Hid & k & Hk & Hx & Hy).
  split; [|split; [|split]]; auto. exists (k + 1).
  unfold step, node_add in *. cbn [x y] in *. lia.
Qed.

Lemma jump_result fuel p costs goal :
  forall point m r,
    jump fuel p costs goal point m = Ok r ->
    r = sentinel \/ jump_point p costs point m r.
Proof.
  induction fuel as [|fuel IH]; intros point m r H; [discriminate|].
  rewrite jump_S in H. unfold jump_from in H. rewrite bounds_test in H.
  destruct (valid_id p (id (step p goal point m))) eqn:Hv;
    cbn [negb] in H; [|left; congruence].
  destruct (blocked p costs (id (step p goal point m))) as [[]| |] eqn:Hb;
    simpl in H; try discriminate; [left; congruence|].
  pose proof (step_jump_point _ _ _ _ _ Hv Hb) as Hnew.
  destruct (node_eqb (step p goal point m) goal); [right; congruence|].
  apply bind_Ok in H as [d [_ H]].
  destruct d; [right; congruence|].
  apply bind_Ok in H as [f [_ H]].
  destruct f; [right; congruence|].
  apply IH in H as [H|H]; [now left|right].
  eapply jump_point_next; eauto.
Qed.

Lemma blocked_Ok_false p costs i :
  blocked p costs i = Ok false ->
  exists c, read costs i = Some c /\ (inject_Z c < threshold p)%Q.
Proof.
  unfold blocked. destruct (read costs i) as [c|]; [|discriminate].
  intros H. exists c. split; [reflexivity|]. apply lethal_false. congruence.
Qed.

Lemma sentinel_not_valid p : valid_id p (id sentinel) = false.
Proof. reflexivity. Qed.

(** C6. If [jump] returns a node whose id is not -1, that id lies in
    [0, nx*ny) and the cost of the grid at that id is strictly below
    lethal_cost * inflation_factor: no jump point sits on an obstacle. *)
Theorem jump_never_returns_obstacle fuel p costs goal point m r :
  jump fuel p costs goal point m = Ok r ->
  id r <> -1 ->
  0 <= id r < ns_ p /\
  exists c, read costs (id r) = Some c /\ (inject_Z c < threshold p)%Q.
Proof.
  intros H Hid. apply jump_result in H as [->|(Hv & Hb & _)].
  - now elim Hid.
  - split; [now apply valid_id_range | now apply blocked_Ok_false].
Qed.

Lemma jump_never_returns_obstacle_witness :
  0 <= 4 < ns_ (planner 3 3) /\
  exists c, read notch_grid 4 = Some c /\ (inject_Z c < threshold (planner 3 3))%Q.
Proof.
  apply (jump_never_returns_obstacle 1 (planner 3 3) notch_grid
           (cell (planner 3 3) 2 2) (cell (planner 3 3) 0 1) (direction 1 0)
           (mkNode 1 1 2 4 3)).
  - reflexivity.
  - discriminate.
Defined.

(** The walk never comes back: a node returned from [point] is not [point]. *)
Lemma jump_point_moves p costs point m r :
  x m <> 0 -> jump_point p costs point m r -> x r <> x point.
Proof.
  intros Hm (_ & _ & _ & k & Hk & Hx & _). nia.
Qed.

Lemma jump_diagonal_unfold fuel p costs goal point m :
  x m <> 0 -> y m <> 0 ->
  valid_id p (id (step p goal point m)) = true ->
  blocked p costs (id (step p goal point m)) = Ok false ->
  node_eqb (step p goal point m) goal = false ->
  jump (S fuel) p costs goal point m =
  (jx <- jump fuel p costs goal (step p goal point m) (mkNode (x m) 0 0 0 0) ;;
   if negb (id jx =? -1) then Ok (step p goal point m) else
   jy <- jump fuel p costs goal (step p goal point m) (mkNode 0 (y m) 0 0 0) ;;
   if negb (id jy =? -1) then Ok (step p goal point m) else
   f <- detectForceNeighbor p costs (step p goal point m) m ;;
   if f then Ok (step p goal point m)
   else jump fuel p costs goal (step p goal point m) m).
Proof.
  intros Hx Hy Hv Hb Hg. rewrite jump_S. unfold jump_from.
  rewrite bounds_test, Hv. cbn [negb]. rewrite Hb. simpl. rewrite Hg.
  apply Z.eqb_neq in Hx. apply Z.eqb_neq in Hy. rewrite Hx, Hy. simpl.
  destruct (jump fuel p costs goal (step p goal point m) (mkNode (x m) 0 0 0 0))
    as [jx| |]; simpl; try reflexivity.
  destruct (negb (id jx =? -1)); simpl; [reflexivity|].
  destruct (jump fuel p costs goal (step p goal point m) (mkNode 0 (y m) 0 0 0))
    as [jy| |]; reflexivity.
Qed.

(** C3. For a diagonal motion whose stepped-to cell is in the grid, not an
    obstacle and not the goal, [jump] probes the directions (dx, 0) and
    (0, dy) from that cell; when the two probes and the forced-neighbour
    test answer, it returns the stepped-to cell itself exactly when a probe
    returned a node other than the sentinel or the test holds there, and
    otherwise it is the diagonal jump from that cell. *)
Theorem jump_diagonal_probes fuel p costs goal point m jx jy f :
  x m <> 0 -> y m <> 0 ->
  in_grid p (x (step p goal point m)) (y (step p goal point m)) ->
  open_at p costs (x (step p goal point m)) (y (step p goal point m)) ->
  node_eqb (step p goal point m) goal = false ->
  jump fuel p costs goal (step p goal point m) (mkNode (x m) 0 0 0 0) = Ok jx ->
  jump fuel p costs goal (step p goal point m) (mkNode 0 (y m) 0 0 0) = Ok jy ->
  detectForceNeighbor p costs (step p goal point m) m = Ok f ->
  (jump (S fuel) p costs goal point m = Ok (step p goal point m)
   <-> (id jx <> -1 \/ id jy <> -1 \/ f = true)) /\
  (~ (id jx <> -1 \/ id jy <> -1 \/ f = true) ->
   jump (S fuel) p costs goal point m
   = jump fuel p costs goal (step p goal point m) m).
Proof.
  intros Hx Hy Hin Hopen Hg Hjx Hjy Hf.
  assert (Hv : valid_id p (id (step p goal point m)) = true)
    by (apply in_grid_valid_id in Hin; exact Hin).
  assert (Hb : blocked p costs (id (step p goal point m)) = Ok false)
    by (apply blocked_false in Hopen; exact Hopen).
  rewrite (jump_diagonal_unfold fuel p costs goal point m Hx Hy Hv Hb Hg).
  rewrite Hjx, Hjy, Hf. simpl.
  destruct (id jx =? -1) eqn:Ejx; simpl;
    [apply Z.eqb_eq in Ejx | apply Z.eqb_neq in Ejx; tauto].
  destruct (id jy =? -1) eqn:Ejy; simpl;
    [apply Z.eqb_eq in Ejy | apply Z.eqb_neq in Ejy; tauto].
  destruct f; [split; [split; auto | tauto]|].
  split; [|reflexivity]. split.
  - intros H. exfalso.
    apply jump_result in H as [H|H].
    + rewrite H in Hv. discriminate.
    + now apply (jump_point_moves _ _ _ _ _ Hx H).
  - intros [H|[H|H]]; [tauto | tauto | discriminate].
Qed.

(** In the walled 5x5 grid with the goal at (3,2), the diagonal step from
    (1,1) lands on (2,2); the probe along (+1,0) finds the goal, so (2,2) is
    returned. *)
Lemma jump_diagonal_probes_witness :
  (jump 3 (planner 5 5) walled_grid (cell (planner 5 5) 3 2)
        (cell (planner 5 5) 1 1) (direction 1 1)
   = Ok (mkNode 2 2 1 12 6)
   <-> (13 <> -1 \/ -1 <> -1 \/ false = true)) /\
  (~ (13 <> -1 \/ -1 <> -1 \/ false = true) ->
   jump 3 (planner 5 5) walled_grid (cell (planner 5 5) 3 2)
        (cell (planner 5 5) 1 1) (direction 1 1)
   = jump 2 (planner 5 5) walled_grid (cell (planner 5 5) 3 2)
          (mkNode 2 2 1 12 6) (direction 1 1)).
Proof.
  apply (jump_diagonal_probes 2 (planner 5 5) walled_grid
           (cell (planner 5 5) 3 2) (cell (planner 5 5) 1 1) (direction 1 1)
           (mkNode 3 2 0 13 12) sentinel false).
  - discriminate.
  - discriminate.
  - unfold in_grid. simpl. lia.
  - exists 0. split; reflexivity.
  - reflexivity.
  - reflexivity.
  - reflexivity.
  - reflexivity.
Defined.

(** ** The bounds test of [jump] looks at the index alone *)

Lemma jump_index_invalid fuel p costs goal point m :
  valid_id p (id (step p goal point m)) = false ->
  jump (S fuel) p costs goal point m = Ok sentinel.
Proof.
  intros Hv. rewrite jump_S. unfold jump_from.
  rewrite bounds_test, Hv. reflexivity.
Qed.

Lemma jump_index_blocked fuel p costs goal point m :
  blocked p costs (id (step p goal point m)) = Ok true ->
  jump (S fuel) p costs goal point m = Ok sentinel.
Proof.
  intros Hb. rewrite jump_S. unfold jump_from. rewrite bounds_test.
  destruct (valid_id p (id (step p goal point m))); cbn [negb]; [|reflexivity].
  rewrite Hb. reflexivity.
Qed.

(** With one level of call stack [jump] answers the sentinel only through
    its first test; the answer is a function of the index stepped to. *)
Lemma jump_rejects_by_index p costs goal point m :
  jump 1 p costs goal point m = Ok sentinel <->
  (valid_id p (id (step p goal point m)) = false \/
   blocked p costs (id (step p goal point m)) = Ok true).
Proof.
  split.
  - rewrite jump_S. unfold jump_from. rewrite bounds_test.
    destruct (valid_id p (id (step p goal point m))) eqn:Hv; [|auto].
    intros H. right. revert H. cbn [negb].
    apply valid_id_range in Hv.
    destruct (blocked p costs (id (step p goal point m))) as [[]| |];
      simpl; try discriminate; [reflexivity|].
    assert (Hne : Ok (step p goal point m) <> Ok sentinel).
    { intros E. assert (E' : step p goal point m = sentinel) by congruence.
      apply (f_equal id) in E'. change (id sentinel) with (-1) in E'. lia. }
    destruct (node_eqb (step p goal point m) goal); [intros E; now elim Hne|].
    destruct (negb (x m =? 0) && negb (y m =? 0)); simpl; [discriminate|].
    destruct (detectForceNeighbor p costs (step p goal point m) m) as [[]| |];
      simpl; try discriminate. intros E; now elim Hne.
  - intros [H|H]; [now apply jump_index_invalid | now apply jump_index_blocked].
Qed.

(** C9. The out-of-bounds rejection of [jump] is decided by the test
    0 <= id < nx*ny on the linear index alone: an index outside the range
    gives the sentinel, and two steps that land on the same index are
    rejected or kept alike, whatever their coordinates. There are an in-grid
    node and a unit motion whose stepped-to cell lies outside the grid
    (x = -1, and x = nx) while its index is in range; [jump] reads the cost
    of the cell of the adjacent row that owns this index, finds it open and
    goes on from there, returning a node with x = -2. *)
Theorem jump_bounds_by_index_only :
  (forall fuel p costs goal point m,
     valid_id p (id (step p goal point m)) = false ->
     jump (S fuel) p costs goal point m = Ok sentinel) /\
  (forall p costs goal point m point' m',
     id (step p goal point m) = id (step p goal point' m') ->
     (jump 1 p costs goal point m = Ok sentinel <->
      jump 1 p costs goal point' m' = Ok sentinel)) /\
  (exists p costs goal point m r,
     in_grid p (x point) (y point) /\ unit_motion m /\
     x (step p goal point m) = -1 /\
     valid_id p (id (step p goal point m)) = true /\
     id (step p goal point m) = grid2Index p (nx_ p - 1) (y point - 1) /\
     blocked p costs (id (step p goal point m)) = Ok false /\
     jump 2 p costs goal point m = Ok r /\ id r <> -1 /\ x r = -2) /\
  (exists p costs goal point m,
     in_grid p (x point) (y point) /\ unit_motion m /\
     x (step p goal point m) = nx_ p /\
     valid_id p (id (step p goal point m)) = true /\
     id (step p goal point m) = grid2Index p 0 (y point + 1) /\
     jump 1 p costs goal point m <> Ok sentinel).
Proof.
  split; [|split; [|split]].
  - intros. now apply jump_index_invalid.
  - intros p costs goal point m point' m' Hid.
    rewrite !jump_rejects_by_index, Hid. tauto.
  - exists (planner 3 4), wrap_grid, (cell (planner 3 4) 2 3),
      (cell (planner 3 4) 0 2), (direction (-1) 0), (mkNode (-2) 2 17 4 5).
    unfold in_grid, unit_motion. simpl.
    repeat split; try lia; reflexivity.
  - exists (planner 3 3), (repeat 0 9), (cell (planner 3 3) 0 0),
      (cell (planner 3 3) 2 1), (direction 1 0).
    unfold in_grid, unit_motion. simpl.
    repeat split; try lia; try reflexivity. discriminate.
Qed.

Lemma jump_bounds_by_index_only_witness :
  jump 1 (planner 3 3) (repeat 0 9) (cell (planner 3 3) 0 0)
       (cell (planner 3 3) 2 2) (direction 1 0) = Ok sentinel.
Proof.
  apply (proj1 jump_bounds_by_index_only 0%nat (planner 3 3) (repeat 0 9)
           (cell (planner 3 3) 0 0) (cell (planner 3 3) 2 2) (direction 1 0)).
  reflexivity.
Defined.

(** C1, at the side of the grid. From the in-grid cell (0,1) of a 3x3 grid
    the motion (-1,0) steps to x = -1, outside the grid, whose index 2
    is that of the cell (2,0). [jump] does not return the sentinel: it
    returns the outside cell as a jump point; and on the open grid it goes on
    to read the array at index -1. *)
Theorem jump_misses_side_boundary :
  in_grid (planner 3 3) 0 1 /\
  unit_motion (direction (-1) 0) /\
  x (step (planner 3 3) (cell (planner 3 3) 2 2) (cell (planner 3 3) 0 1)
          (direction (-1) 0)) = -1 /\
  jump 1 (planner 3 3) side_grid (cell (planner 3 3) 2 2)
       (cell (planner 3 3) 0 1) (direction (-1) 0)
  = Ok (mkNode (-1) 1 10 2 3) /\
  jump 1 (planner 3 3) (repeat 0 9) (cell (planner 3 3) 2 2)
       (cell (planner 3 3) 0 1) (direction (-1) 0)
  = OutOfBounds (-1).
Proof.
  unfold in_grid, unit_motion. simpl.
  repeat split; try lia; reflexivity.
Qed.

(** ** Depth of the recursion *)

(** In the one-column grid a step along (+1,-1) leaves the index where it
    was: cells with x + y = 2 all share the index 2. *)
Lemma column_index cx cy : grid2Index (planner 1 5) cx cy = cx + cy.
Proof. unfold grid2Index, planner. cbn [nx_]. lia. Qed.

Lemma column_step_id goal point dx dy :
  id (step (planner 1 5) goal point (direction dx dy)) = x point + y point + dx + dy.
Proof. unfold step, node_add. cbn [id x y direction]. rewrite column_index. lia. Qed.

Lemma column_blocked i :
  blocked (planner 1 5) column_grid i
  = if (i =? 0) || (i =? 1) || (i =? 3) || (i =? 4) then Ok true
    else if i =? 2 then Ok false else OutOfBounds i.
Proof.
  destruct (Z.ltb_spec i 0) as [Hi|Hi].
  - unfold blocked, read. apply Z.ltb_lt in Hi as Hlt. rewrite Hlt.
    repeat match goal with |- context [i =? ?k] =>
      destruct (Z.eqb_spec i k); [lia|] end. reflexivity.
  - destruct (Z.ltb_spec i 5) as [Hj|Hj].
    + assert (Hc : i = 0 \/ i = 1 \/ i = 2 \/ i = 3 \/ i = 4) by lia.
      destruct Hc as [->|[->|[->|[->| ->]]]]; reflexivity.
    + unfold blocked, read. apply Z.ltb_ge in Hi as Hge. rewrite Hge.
      replace (nth_error column_grid (Z.to_nat i)) with (@None Z)
        by (symmetry; apply nth_error_None; simpl; lia).
      repeat match goal with |- context [i =? ?k] =>
        destruct (Z.eqb_spec i k); [lia|] end. reflexivity.
Qed.

Lemma column_probe fuel goal point dx dy :
  x point + y point + dx + dy = 1 \/ x point + y point + dx + dy = 3 ->
  jump (S fuel) (planner 1 5) column_grid goal point (direction dx dy) = Ok sentinel.
Proof.
  intros H. apply jump_index_blocked.
  rewrite column_step_id, column_blocked.
  destruct H as [-> | ->]; reflexivity.
Qed.

Lemma column_no_forced_neighbor point :
  x point + y point = 2 ->
  detectForceNeighbor (planner 1 5) column_grid point (direction 1 (-1)) = Ok false.
Proof.
  intros H. unfold detectForceNeighbor, forced_either, forced_by.
  cbn [x y direction fst snd]. simpl negb. cbn [andb].
  rewrite !column_index.
  replace (x point - 1 + y point) with 1 by lia.
  replace (x point - 1 + (y point + -1)) with 0 by lia.
  replace (x point + (y point - -1)) with 3 by lia.
  replace (x point + 1 + (y point - -1)) with 4 by lia.
  reflexivity.
Qed.

Lemma column_walk_never_ends fuel :
  forall point, x point + y point = 2 ->
    jump fuel (planner 1 5) column_grid (cell (planner 1 5) 0 0) point
         (direction 1 (-1)) = OutOfFuel.
Proof.
  induction fuel as [|fuel IH]; intros point H; [reflexivity|].
  set (goal := cell (planner 1 5) 0 0).
  assert (Hid : id (step (planner 1 5) goal point (direction 1 (-1))) = 2)
    by (rewrite column_step_id; lia).
  assert (Hxy : x (step (planner 1 5) goal point (direction 1 (-1)))
                + y (step (planner 1 5) goal point (direction 1 (-1))) = 2)
    by (unfold step, node_add; cbn [x y direction]; lia).
  rewrite jump_diagonal_unfold.
  - destruct fuel as [|fuel]; [reflexivity|].
    change (mkNode (x (direction 1 (-1))) 0 0 0 0) with (direction 1 0).
    change (mkNode 0 (y (direction 1 (-1))) 0 0 0) with (direction 0 (-1)).
    rewrite (column_probe fuel goal _ 1 0) by lia.
    cbn [bind]. change (negb (id sentinel =? -1)) with false. cbv iota.
    rewrite (column_probe fuel goal _ 0 (-1)) by lia.
    cbn [bind]. change (negb (id sentinel =? -1)) with false. cbv iota.
    rewrite column_no_forced_neighbor by assumption.
    cbn [bind]. apply IH. assumption.
  - discriminate.
  - discriminate.
  - rewrite Hid. reflexivity.
  - rewrite Hid. reflexivity.
  - unfold node_eqb. rewrite Hid. reflexivity.
Qed.

(** C8, on grids where the walk crosses the side of the grid. On the 3x6
    grid the walk along (+1,0) from the in-grid cell (0,1) runs through the
    rows: ten levels of call stack, more than the nine cells of width and
    height together, do not suffice, the eleventh call returns. On the
    one-column grid the walk along (+1,-1) from the in-grid cell (0,2) stays
    on index 2 and no depth suffices. *)
Theorem jump_depth_exceeds_diagonal :
  in_grid (planner 3 6) 0 1 /\
  jump 10 (planner 3 6) long_grid (cell (planner 3 6) 2 5)
       (cell (planner 3 6) 0 1) (direction 1 0) = OutOfFuel /\
  jump 11 (planner 3 6) long_grid (cell (planner 3 6) 2 5)
       (cell (planner 3 6) 0 1) (direction 1 0) = Ok sentinel /\
  in_grid (planner 1 5) 0 2 /\
  (forall fuel,
     jump fuel (planner 1 5) column_grid (cell (planner 1 5) 0 0)
          (cell (planner 1 5) 0 2) (direction 1 (-1)) = OutOfFuel).
Proof.
  split; [unfold in_grid; simpl; lia|].
  split; [reflexivity|]. split; [reflexivity|].
  split; [unfold in_grid; simpl; lia|].
  intros fuel. apply column_walk_never_ends. reflexivity.
Qed.

(** ** The jump function inside an outlined grid *)

Lemma interior_dec p cx cy : {interior p cx cy} + {~ interior p cx cy}.
Proof.
  unfold interior.
  destruct (Z_le_dec 1 cx), (Z_le_dec cx (nx_ p - 2)),
           (Z_le_dec 1 cy), (Z_le_dec cy (ny_ p - 2));
    try (left; lia); right; lia.
Qed.

Lemma room_along_step size pos dir :
  1 <= pos <= size - 2 -> -1 <= dir <= 1 ->
  0 <= room_along size pos dir /\
  (dir <> 0 -> 1 <= room_along size pos dir) /\
  (1 <= pos + dir <= size - 2 ->
   room_along size (pos + dir) dir <= room_along size pos dir /\
   (dir <> 0 -> room_along size (pos + dir) dir = room_along size pos dir - 1)).
Proof.
  intros Hp Hd. unfold room_along.
  destruct (Z.ltb_spec 0 dir), (Z.ltb_spec dir 0); lia.
Qed.

Lemma room_along_zero size pos : room_along size pos 0 = 0.
Proof. reflexivity. Qed.

Lemma step_coordinates p goal point m :
  x (step p goal point m) = x point + x m /\
  y (step p goal point m) = y point + y m /\
  id (step p goal point m)
  = grid2Index p (x (step p goal point m)) (y (step p goal point m)).
Proof. repeat split. Qed.

Section Walled.

Variable p : Planner.
Variable costs : list Z.
Variable goal : Node.
Hypothesis costs_length : grid_costs p costs.
Hypothesis costs_outlined : outlined p costs.

(** Inside an outlined grid a walk from an interior cell ends within
    [room] calls, on the sentinel or on an interior cell. *)
Lemma jump_walled fuel :
  forall point m,
    interior p (x point) (y point) -> unit_motion m ->
    room p point m <= Z.of_nat fuel ->
    exists r, jump fuel p costs goal point m = Ok r /\
              (r = sentinel \/ interior p (x r) (y r)).
Proof.
  induction fuel as [|fuel IH]; intros point m Hint Hm Hroom.
  - exfalso. destruct Hint as [Hx Hy]. destruct Hm as (Hdx & Hdy & Hnz).
    destruct (room_along_step (nx_ p) (x point) (x m) Hx Hdx) as (Hx0 & Hx1 & _).
    destruct (room_along_step (ny_ p) (y point) (y m) Hy Hdy) as (Hy0 & Hy1 & _).
    unfold room in Hroom. simpl in Hroom. lia.
  - rewrite jump_S. unfold jump_from.
    set (new_point := step p goal point m).
    destruct (step_coordinates p goal point m) as (Hnx & Hny & Hnid).
    fold new_point in Hnx, Hny, Hnid.
    pose proof Hm as (Hdx & Hdy & Hnz).
    assert (Hgrid : in_grid p (x new_point) (y new_point))
      by (rewrite Hnx, Hny; now apply interior_neighbour).
    pose proof (in_grid_valid_id _ _ _ Hgrid) as Hv.
    rewrite <- Hnid in Hv. rewrite bounds_test, Hv. cbn [negb].
    destruct (interior_dec p (x new_point) (y new_point)) as [Hnew|Hnew].
    2:{ rewrite Hnid, (costs_outlined _ _ Hgrid Hnew). simpl. eauto. }
    destruct (in_grid_readable p costs _ _ costs_length Hgrid) as [c Hc].
    rewrite Hnid, (blocked_readable _ _ _ _ Hc). simpl.
    destruct (lethal p c); [eauto|].
    destruct (node_eqb new_point goal); [eauto|].
    (* how far the walks from the new cell may go *)
    destruct Hint as [Hx Hy]. pose proof Hnew as [Hx' Hy'].
    rewrite Hnx in Hx'. rewrite Hny in Hy'.
    destruct (room_along_step (nx_ p) (x point) (x m) Hx Hdx) as (Hx0 & Hx1 & Hxs).
    destruct (room_along_step (ny_ p) (y point) (y m) Hy Hdy) as (Hy0 & Hy1 & Hys).
    specialize (Hxs Hx'). specialize (Hys Hy').
    destruct Hxs as [Hxle Hxeq]. destruct Hys as [Hyle Hyeq].
    unfold room in Hroom.
    assert (Hrec : exists r, jump fuel p costs goal new_point m = Ok r /\
                             (r = sentinel \/ interior p (x r) (y r))).
    { apply IH; [assumption|assumption|].
      unfold room. rewrite Hnx, Hny. lia. }
    destruct (detectForceNeighbor_interior p costs new_point m
                costs_length Hnew Hm) as [f Hf].
    destruct (negb (x m =? 0) && negb (y m =? 0)) eqn:Hdiag.
    + apply andb_true_iff in Hdiag as [Ex Ey].
      apply negb_true_iff in Ex. apply negb_true_iff in Ey.
      apply Z.eqb_neq in Ex. apply Z.eqb_neq in Ey.
      destruct (IH new_point (mkNode (x m) 0 0 0 0)) as (jx & Hjx & _);
        [assumption | unfold unit_motion; simpl; lia
         | unfold room; cbn [x y]; rewrite room_along_zero, Hnx; lia |].
      destruct (IH new_point (mkNode 0 (y m) 0 0 0)) as (jy & Hjy & _);
        [assumption | unfold unit_motion; simpl; lia
         | unfold room; cbn [x y]; rewrite room_along_zero, Hny; lia |].
      rewrite Hjx. simpl.
      destruct (negb (id jx =? -1)); simpl; [eauto|].
      rewrite Hjy. simpl.
      destruct (negb (id jy =? -1)); simpl; [eauto|].
      rewrite Hf. simpl. destruct f; eauto.
    + simpl. rewrite Hf. simpl. destruct f; eauto.
Qed.

End Walled.

(** ** Counting the closed cells *)

Lemma NoDup_bounded_length (l : list Z) (n : Z) :
  0 <= n -> NoDup l -> (forall i, In i l -> 0 <= i < n) ->
  Z.of_nat (length l) <= n.
Proof.
  intros Hn Hnd Hb.
  assert (Hnd' : NoDup (map Z.to_nat l)).
  { apply NoDup_map_NoDup_ForallPairs; [|assumption].
    intros a b Ha Hb' E. apply Hb in Ha. apply Hb in Hb'. lia. }
  assert (Hincl : incl (map Z.to_nat l) (seq 0 (Z.to_nat n))).
  { intros k Hk. apply in_map_iff in Hk as [i [<- Hi]].
    apply Hb in Hi. apply in_seq. lia. }
  pose proof (NoDup_incl_length Hnd' Hincl) as Hlen.
  rewrite length_map, length_seq in Hlen. lia.
Qed.

Lemma getMotion_unit : forall m, In m getMotion -> unit_motion m.
Proof.
  intros m Hm. unfold getMotion in Hm. simpl in Hm.
  repeat (destruct Hm as [<-|Hm]; [unfold unit_motion; simpl; lia|]).
  contradiction.
Qed.

Lemma room_bound p point m :
  interior p (x point) (y point) -> unit_motion m ->
  room p point m <= nx_ p + ny_ p.
Proof.
  intros [Hx Hy] (Hdx & Hdy & _). unfold room, room_along.
  destruct (Z.ltb_spec 0 (x m)), (Z.ltb_spec (x m) 0),
           (Z.ltb_spec 0 (y m)), (Z.ltb_spec (y m) 0); lia.
Qed.

(** ** The closed list *)

Lemma closed_find_Some closed i n :
  closed_find closed i = Some n -> In n closed /\ id n = i.
Proof.
  unfold closed_find. intros H. apply find_some in H as [Hin He].
  apply Z.eqb_eq in He. auto.
Qed.

Lemma closed_find_None closed i :
  closed_find closed i = None <-> ~ In i (map id closed).
Proof.
  unfold closed_find. split.
  - intros H Hin. apply in_map_iff in Hin as [n [Hid Hn]].
    apply (find_none _ _ H) in Hn. apply Z.eqb_neq in Hn. auto.
  - intros H. destruct (find (fun n => id n =? i) closed) as [n|] eqn:E;
      [|reflexivity].
    apply find_some in E as [Hin He]. apply Z.eqb_eq in He.
    exfalso. apply H. apply in_map_iff. eauto.
Qed.

Lemma closed_mem_false closed n :
  closed_mem closed n = false <-> ~ In (id n) (map id closed).
Proof.
  unfold closed_mem. rewrite <- closed_find_None.
  destruct (closed_find closed (id n)); split; congruence.
Qed.

Lemma closed_mem_true closed n :
  closed_mem closed n = true <-> In (id n) (map id closed).
Proof.
  destruct (closed_mem closed n) eqn:E.
  - split; [intros _|reflexivity].
    destruct (in_dec Z.eq_dec (id n) (map id closed)) as [Hin|Hin]; [assumption|].
    apply closed_mem_false in Hin. congruence.
  - apply closed_mem_false in E. split; [discriminate | contradiction].
Qed.

Lemma closed_insert_new closed n :
  closed_mem closed n = false -> closed_insert closed n = n :: closed.
Proof. unfold closed_insert. now intros ->. Qed.

Lemma closed_insert_old closed n :
  closed_mem closed n = true -> closed_insert closed n = closed.
Proof. unfold closed_insert. now intros ->. Qed.

Lemma closed_find_head closed n : closed_find (n :: closed) (id n) = Some n.
Proof. unfold closed_find. simpl. now rewrite Z.eqb_refl. Qed.

(** A node added under a new key hides none of the older ones. *)
Lemma closed_find_older closed n i par :
  closed_mem closed n = false ->
  closed_find closed i = Some par ->
  closed_find (n :: closed) i = Some par.
Proof.
  intros Hn Hf. unfold closed_find. simpl.
  destruct (id n =? i) eqn:E; [|exact Hf].
  apply Z.eqb_eq in E. apply closed_mem_false in Hn.
  apply closed_find_Some in Hf as [Hin Hid].
  exfalso. apply Hn. rewrite E, <- Hid. now apply in_map.
Qed.

(** ** Lines of parents *)

Lemma ancestry_last p closed n path :
  ancestry p closed n path -> exists pre, path = pre ++ [n].
Proof.
  destruct 1 as [n _|n parent path _ _ _]; [exists []|exists path]; reflexivity.
Qed.

Lemma ancestry_older p closed m n path :
  closed_mem closed m = false ->
  ancestry p closed n path -> ancestry p (m :: closed) n path.
Proof.
  intros Hm. induction 1 as [n Hp|n parent path Hp Hf _ IH].
  - now apply ancestry_root.
  - eapply ancestry_child; eauto. now apply closed_find_older.
Qed.

Lemma linked_snoc pre a b :
  linked (pre ++ [a]) -> pid b = id a -> linked ((pre ++ [a]) ++ [b]).
Proof.
  intros Hl Hb. induction pre as [|c pre IH]; simpl in *.
  - auto.
  - destruct (pre ++ [a]) as [|d rest] eqn:E.
    + destruct pre; discriminate.
    + simpl in *. destruct Hl as [Hd Hl]. split; [assumption|]. now apply IH.
Qed.

Lemma hd_error_app {A : Type} (l l' : list A) a :
  hd_error l = Some a -> hd_error (l ++ l') = Some a.
Proof. destruct l; [discriminate|auto]. Qed.

Lemma backtrack_ancestry p closed n path :
  ancestry p closed n path ->
  forall fuel acc, (length path <= S fuel)%nat ->
    backtrack fuel p closed n acc = Ok (path ++ acc).
Proof.
  induction 1 as [n Hp|n parent path Hp Hf Ha IH]; intros fuel acc Hlen.
  - destruct fuel; simpl; rewrite Hp; reflexivity.
  - rewrite length_app in Hlen. simpl in Hlen.
    destruct fuel as [|fuel].
    + apply ancestry_last in Ha as [pre ->]. rewrite length_app in Hlen.
      simpl in Hlen. lia.
    + simpl. rewrite Hp, Hf. simpl.
      rewrite IH by lia. now rewrite <- app_assoc.
Qed.

(** A popped node that is not closed yet gets its line of parents when it
    joins the closed list. *)
Lemma ancestry_of_child p closed start n :
  valid_id p (pid start) = false ->
  closed_mem closed n = false ->
  (forall m, In m closed ->
     exists path, ancestry p closed m path /\ hd_error path = Some start /\
                  linked path /\ (length path <= length closed)%nat) ->
  (n = start \/
   (valid_id p (pid n) = true /\
    exists parent, closed_find closed (pid n) = Some parent)) ->
  exists path, ancestry p (n :: closed) n path /\ hd_error path = Some start /\
               linked path /\ (length path <= length (n :: closed))%nat.
Proof.
  intros Hstart Hn Hclosed [->|[Hp [parent Hf]]].
  - exists [start]. repeat split; simpl; [now apply ancestry_root | lia].
  - pose proof (closed_find_Some _ _ _ Hf) as [Hin Hid].
    destruct (Hclosed _ Hin) as (path & Ha & Hhd & Hl & Hlen).
    exists (path ++ [n]). split; [|split; [|split]].
    + eapply ancestry_child; eauto using closed_find_older, ancestry_older.
    + now apply hd_error_app.
    + destruct (ancestry_last _ _ _ _ Ha) as [pre ->].
      apply linked_snoc; auto.
    + rewrite length_app. simpl. lia.
Qed.

(** ** The search loop *)

Section SearchProperties.

Variable pop_top : Node -> list Node -> Node * list Node.
Hypothesis pop_top_perm : forall n l,
  Permutation (n :: l) (fst (pop_top n l) :: snd (pop_top n l)).

Variable fuel_jump : nat.
Variable p : Planner.
Variable costs : list Z.
Variables start goal : Node.

Local Abbreviation iteration_ := (iteration pop_top fuel_jump p costs start goal).
Local Abbreviation search_ := (search pop_top fuel_jump p costs start goal).
Local Abbreviation plan_ := (plan pop_top fuel_jump p costs start goal).
Local Abbreviation reachable_ := (reachable pop_top fuel_jump p costs start goal).
Local Abbreviation expansions_ := (expansions pop_top fuel_jump p costs start goal).
Local Abbreviation explore_ := (explore fuel_jump p costs goal).
Local Abbreviation push_all_ := (push_all goal).
Local Abbreviation passes_left_ := (passes_left p).

Lemma pop_top_singleton n : pop_top n [] = (n, []).
Proof.
  pose proof (pop_top_perm n []) as H.
  apply Permutation_length_1_inv in H.
  destruct (pop_top n []) as [c r]. simpl in H. congruence.
Qed.

Lemma pop_top_In n l m :
  In m (fst (pop_top n l) :: snd (pop_top n l)) -> In m (n :: l).
Proof.
  apply Permutation_in. apply Permutation_sym. apply pop_top_perm.
Qed.

Lemma pop_top_length n l : length (snd (pop_top n l)) = length l.
Proof.
  pose proof (Permutation_length (pop_top_perm n l)) as H.
  simpl in H. lia.
Qed.

(** The three ways through the loop body that go round again or return. *)
Lemma iteration_Continue st st' :
  iteration_ st = Ok (Continue st') ->
  exists n l, open_list st = n :: l /\
    let current := fst (pop_top n l) in
    let rest := snd (pop_top n l) in
    (closed_mem (closed_list st) current = true /\
     st' = mkState rest (closed_list st) (expand st))
    \/
    (closed_mem (closed_list st) current = false /\
     node_eqb current goal = false /\
     exists jp_list,
       explore_ current (closed_list st) getMotion = Ok jp_list /\
       st' = mkState (fst (push_all_ jp_list rest (expand st)))
                     (current :: closed_list st)
                     (snd (push_all_ jp_list rest (expand st)))).
Proof.
  unfold iteration.
  destruct (open_list st) as [|n l]; [discriminate|].
  intros H. exists n, l. split; [reflexivity|]. simpl.
  destruct (pop_top n l) as [current rest]. simpl.
  destruct (closed_mem (closed_list st) current) eqn:Hc.
  - left. split; [reflexivity|]. congruence.
  - right. split; [reflexivity|].
    destruct (node_eqb current goal).
    + apply bind_Ok in H as [path [_ H]]. discriminate.
    + split; [reflexivity|].
      apply bind_Ok in H as [jp_list [He H]].
      exists jp_list. split; [assumption|].
      rewrite (closed_insert_new _ _ Hc) in H.
      destruct (push_all_ jp_list rest (expand st)). simpl. congruence.
Qed.

Lemma iteration_Return st found path e :
  iteration_ st = Ok (Return found path e) ->
  (open_list st = [] /\ found = false /\ path = [] /\ e = expand st)
  \/
  (exists n l, open_list st = n :: l /\
     let current := fst (pop_top n l) in
     closed_mem (closed_list st) current = false /\
     node_eqb current goal = true /\
     found = true /\ e = expand st /\
     _convertClosedListToPath p (current :: closed_list st) start goal = Ok path).
Proof.
  unfold iteration.
  destruct (open_list st) as [|n l].
  - intros H. injection H as <- <- <-. left. auto.
  - intros H. right. exists n, l. split; [reflexivity|]. simpl.
    destruct (pop_top n l) as [current rest]. simpl.
    destruct (closed_mem (closed_list st) current) eqn:Hc; [discriminate|].
    split; [reflexivity|].
    destruct (node_eqb current goal).
    + apply bind_Ok in H as [path' [Hp H]].
      rewrite (closed_insert_new _ _ Hc) in Hp.
      injection H as <- <- <-. auto.
    + apply bind_Ok in H as [jp_list [_ H]].
      destruct (push_all_ jp_list rest (expand st)). discriminate.
Qed.

Lemma iteration_discard st n l :
  open_list st = n :: l ->
  closed_mem (closed_list st) (fst (pop_top n l)) = true ->
  iteration_ st
  = Ok (Continue (mkState (snd (pop_top n l)) (closed_list st) (expand st))).
Proof.
  intros Ho Hc. unfold iteration. rewrite Ho.
  destruct (pop_top n l) as [current rest]. simpl in *. now rewrite Hc.
Qed.

Lemma iteration_closed_grows st st' :
  iteration_ st = Ok (Continue st') ->
  exists added, closed_list st' = added ++ closed_list st.
Proof.
  intros H. apply iteration_Continue in H as (n & l & _ & [[_ ->]|(_ & _ & jps & _ & ->)]).
  - exists []. reflexivity.
  - exists [fst (pop_top n l)]. reflexivity.
Qed.

Lemma expansions_fresh fuel :
  forall st,
    NoDup (map id (closed_list st)) ->
    NoDup (map id (expansions_ fuel st)) /\
    forall n, In n (expansions_ fuel st) -> closed_mem (closed_list st) n = false.
Proof.
  induction fuel as [|fuel IH]; intros st Hnd; simpl.
  - split; [constructor | contradiction].
  - destruct (open_list st) as [|n l] eqn:Ho; [split; [constructor|contradiction]|].
    destruct (iteration_ st) as [[st'|]| |] eqn:Hit;
      try (split; [constructor|contradiction]).
    apply iteration_Continue in Hit as (n' & l' & Ho' & Hcase).
    rewrite Ho in Ho'. injection Ho' as <- <-. simpl in Hcase.
    destruct Hcase as [[Hc ->]|(Hc & _ & jps & _ & ->)]; rewrite Hc.
    + apply (IH (mkState (snd (pop_top n l)) (closed_list st) (expand st))).
      assumption.
    + destruct (IH (mkState (fst (push_all_ jps (snd (pop_top n l)) (expand st)))
                            (fst (pop_top n l) :: closed_list st)
                            (snd (push_all_ jps (snd (pop_top n l)) (expand st)))))
        as [IH1 IH2].
      { simpl. constructor; [now apply closed_mem_false | assumption]. }
      simpl in IH2. split.
      * simpl. constructor; [|assumption].
        intros Hin. apply in_map_iff in Hin as [m [Hid Hm]].
        apply IH2 in Hm. apply closed_mem_false in Hm. apply Hm.
        simpl. left. congruence.
      * intros m [<-|Hm]; [assumption|].
        apply IH2 in Hm. apply closed_mem_false in Hm.
        apply closed_mem_false. intros Hin. apply Hm. simpl. now right.
Qed.

Lemma reachable_closed_NoDup st :
  reachable_ st -> NoDup (map id (closed_list st)).
Proof.
  induction 1 as [|st st' _ IH Hit]; [constructor|].
  apply iteration_Continue in Hit as (n & l & _ & [[_ ->]|(Hc & _ & jps & _ & ->)]);
    simpl; [assumption|].
  constructor; [now apply closed_mem_false | assumption].
Qed.

(** C7. When [plan] is called with the start equal to the goal (the start
    carrying no valid parent, as the data model has it), the goal is popped
    in the very first pass of the loop and [plan] returns found = true
    with the path of the single start/goal cell, whatever the cost grid. *)
Theorem plan_start_is_goal fuel :
  node_eqb start goal = true ->
  valid_id p (pid start) = false ->
  iteration_ (initial start) = Ok (Return true [start] [start]) /\
  plan_ (S fuel) = Ok (true, [start], [start]).
Proof.
  intros Heq Hpid.
  assert (Hit : iteration_ (initial start) = Ok (Return true [start] [start])).
  { unfold iteration, initial. simpl.
    rewrite pop_top_singleton. simpl. rewrite Heq.
    unfold _convertClosedListToPath, closed_insert. simpl.
    unfold node_eqb in Heq. rewrite Heq. simpl. rewrite Hpid. reflexivity. }
  split; [exact Hit|].
  unfold plan. simpl. rewrite Hit. reflexivity.
Qed.

(** C5. In every execution of [plan], a pass of the loop only ever adds to
    the closed list; a popped node whose id is already closed is discarded,
    nothing being explored, pushed or traced; and the nodes expanded in the
    course of the search have pairwise different ids, none of them an id
    that was closed before: each coordinate is expanded at most once. *)
Theorem closed_never_reexpanded :
  (forall st st', iteration_ st = Ok (Continue st') ->
     exists added, closed_list st' = added ++ closed_list st) /\
  (forall st n l, open_list st = n :: l ->
     closed_mem (closed_list st) (fst (pop_top n l)) = true ->
     iteration_ st
     = Ok (Continue (mkState (snd (pop_top n l)) (closed_list st) (expand st)))) /\
  (forall fuel, NoDup (map id (expansions_ fuel (initial start)))) /\
  (forall st fuel n, reachable_ st -> In n (expansions_ fuel st) ->
     closed_mem (closed_list st) n = false).
Proof.
  split; [|split; [|split]].
  - apply iteration_closed_grows.
  - apply iteration_discard.
  - intros fuel. apply expansions_fresh. simpl. constructor.
  - intros st fuel n Hr. apply expansions_fresh.
    now apply reachable_closed_NoDup.
Qed.

(** *** What the loop keeps true *)

Lemma explore_spec current closed motions :
  forall jp_list,
    explore_ current closed motions = Ok jp_list ->
    (length jp_list <= length motions)%nat /\
    forall jp, In jp jp_list ->
      pid jp = id current /\ closed_mem closed jp = false /\
      exists m r, In m motions /\
        jump fuel_jump p costs goal current m = Ok r /\
        id r <> -1 /\ x jp = x r /\ y jp = y r /\ id jp = id r.
Proof.
  induction motions as [|m motions IH]; intros jp_list H; simpl in H.
  - injection H as <-. split; [simpl; lia | contradiction].
  - apply bind_Ok in H as [r [Hr H]].
    apply bind_Ok in H as [rest [Hrest H]].
    destruct (IH _ Hrest) as [IHlen IHin].
    assert (Hold : forall jp, In jp rest ->
              pid jp = id current /\ closed_mem closed jp = false /\
              exists m0 r0, In m0 (m :: motions) /\
                jump fuel_jump p costs goal current m0 = Ok r0 /\
                id r0 <> -1 /\ x jp = x r0 /\ y jp = y r0 /\ id jp = id r0).
    { intros jp Hjp. destruct (IHin jp Hjp) as (H1 & H2 & m0 & r0 & H3 & H4).
      repeat split; auto. exists m0, r0. split; [now right | assumption]. }
    destruct (negb (id r =? -1) && negb (closed_mem closed r)) eqn:Hkeep;
      injection H as <-.
    + split; [simpl; lia|].
      intros jp [<-|Hjp]; [|now apply Hold].
      apply andb_true_iff in Hkeep as [Hid Hcl].
      apply negb_true_iff in Hid. apply Z.eqb_neq in Hid.
      apply negb_true_iff in Hcl.
      simpl. repeat split; auto.
      exists m, r. simpl. auto 10.
    + split; [simpl; lia | exact Hold].
Qed.

Lemma push_all_In jp_list :
  forall open e n,
    In n (fst (push_all_ jp_list open e)) -> In n open \/ In n jp_list.
Proof.
  induction jp_list as [|jp jp_list IH]; intros open e n Hin; simpl in *.
  - now left.
  - destruct (node_eqb jp goal); simpl in Hin.
    + apply in_app_or in Hin as [Hin|[<-|[]]]; auto.
    + apply IH in Hin as [Hin|Hin]; [|auto].
      apply in_app_or in Hin as [Hin|[<-|[]]]; auto.
Qed.

Lemma push_all_length jp_list :
  forall open e,
    (length (fst (push_all_ jp_list open e)) <= length open + length jp_list)%nat.
Proof.
  induction jp_list as [|jp jp_list IH]; intros open e; simpl.
  - lia.
  - destruct (node_eqb jp goal); simpl.
    + rewrite length_app. simpl. lia.
    + specialize (IH (open ++ [jp]) (e ++ [jp])).
      rewrite length_app in IH. simpl in IH. lia.
Qed.

Lemma search_invariant_initial :
  valid_id p (id start) = true -> search_invariant p start goal (initial start).
Proof.
  intros Hs. unfold search_invariant, initial. simpl.
  split; [constructor|]. split; [contradiction|].
  intros n [<-|[]]. auto.
Qed.

Lemma explore_valid_id current closed motions jp_list jp :
  explore_ current closed motions = Ok jp_list -> In jp jp_list ->
  valid_id p (id jp) = true.
Proof.
  intros H Hin. apply explore_spec in H as [_ H].
  destruct (H jp Hin) as (_ & _ & m & r & _ & Hj & Hid & _ & _ & ->).
  apply jump_result in Hj as [->|(Hv & _)]; [now elim Hid | assumption].
Qed.

Lemma search_invariant_step st st' :
  valid_id p (pid start) = false ->
  search_invariant p start goal st ->
  iteration_ st = Ok (Continue st') ->
  search_invariant p start goal st'.
Proof.
  intros Hroot (Hnd & Hclosed & Hopen) Hit.
  apply iteration_Continue in Hit as (n & l & Ho & Hcase). cbv zeta in Hcase.
  assert (Hpop : forall m, In m (fst (pop_top n l) :: snd (pop_top n l)) ->
            valid_id p (id m) = true /\
            (m = start \/
             (valid_id p (pid m) = true /\
              exists parent, closed_find (closed_list st) (pid m) = Some parent))).
  { intros m Hm. apply Hopen. rewrite Ho. now apply pop_top_In. }
  destruct Hcase as [[Hc ->]|(Hc & Hg & jps & He & ->)];
    unfold search_invariant; simpl.
  - split; [assumption|]. split; [assumption|].
    intros m Hm. apply Hpop. now right.
  - set (current := fst (pop_top n l)) in *.
    destruct (Hpop current) as [Hcv Hcp]; [now left|].
    pose proof (ancestry_of_child p (closed_list st) start current
                  Hroot Hc (fun m Hm => proj2 (proj2 (Hclosed m Hm))) Hcp)
      as Hcur.
    split; [constructor; [now apply closed_mem_false | assumption]|].
    split.
    + intros m [<-|Hm]; [auto|].
      destruct (Hclosed m Hm) as (Hv & Hmg & path & Ha & Hhd & Hl & Hlen).
      split; [assumption|]. split; [assumption|].
      exists path. repeat split; auto using ancestry_older.
    + intros m Hm. apply push_all_In in Hm as [Hm|Hm].
      * destruct (Hpop m) as [Hv Hp]; [now right|].
        split; [assumption|].
        destruct Hp as [->|[Hp [parent Hf]]]; [now left|right].
        split; [assumption|]. exists parent. now apply closed_find_older.
      * split; [exact (explore_valid_id _ _ _ _ _ He Hm)|]. right.
        apply explore_spec in He as [_ He].
        destruct (He m Hm) as (Hpid & _). rewrite Hpid.
        split; [assumption|]. exists current. apply closed_find_head.
Qed.

Lemma reachable_invariant st :
  valid_id p (id start) = true -> valid_id p (pid start) = false ->
  reachable_ st -> search_invariant p start goal st.
Proof.
  intros Hs Hroot. induction 1 as [|st st' _ IH Hit].
  - now apply search_invariant_initial.
  - eapply search_invariant_step; eauto.
Qed.

Lemma search_returns_from fuel :
  forall st found path e,
    reachable_ st -> search_ fuel st = Ok (found, path, e) ->
    exists st', reachable_ st' /\ iteration_ st' = Ok (Return found path e).
Proof.
  induction fuel as [|fuel IH]; intros st found path e Hr H; [discriminate|].
  simpl in H. apply bind_Ok in H as [r [Hit H]].
  destruct r as [st'|found' path' e'].
  - apply (IH st'); [|assumption]. eapply reach_next; eauto.
  - injection H as <- <- <-. eauto.
Qed.

Lemma plan_outcome fuel found path e :
  valid_id p (id start) = true -> valid_id p (pid start) = false ->
  plan_ fuel = Ok (found, path, e) ->
  goal_popped pop_top fuel_jump p costs start goal found path \/
  open_exhausted pop_top fuel_jump p costs start goal found path.
Proof.
  intros Hs Hroot H.
  apply search_returns_from in H as (st & Hr & Hit); [|constructor].
  pose proof (reachable_invariant st Hs Hroot Hr) as (Hnd & Hclosed & Hopen).
  apply iteration_Return in Hit
    as [(Ho & -> & -> & _)|(n & l & Ho & Hc & Hg & -> & _ & Hpath)].
  - right. repeat split; auto. exists st. repeat split; auto.
    intros m Hm. now apply Hclosed.
  - left. split; [reflexivity|]. cbv zeta in *.
    set (current := fst (pop_top n l)) in *.
    assert (Hin : In current (open_list st))
      by (rewrite Ho; apply pop_top_In; now left).
    destruct (Hopen _ Hin) as [_ Hparent].
    destruct (ancestry_of_child p (closed_list st) start current Hroot Hc
                (fun m Hm => proj2 (proj2 (Hclosed m Hm))) Hparent)
      as (path' & Ha & Hhd & Hl & Hlen).
    unfold _convertClosedListToPath in Hpath.
    unfold node_eqb in Hg. apply Z.eqb_eq in Hg.
    rewrite <- Hg, closed_find_head in Hpath.
    rewrite (backtrack_ancestry _ _ _ _ Ha) in Hpath by lia.
    rewrite app_nil_r in Hpath. injection Hpath as <-.
    destruct (ancestry_last _ _ _ _ Ha) as [pre Hpre].
    exists pre, current. repeat split; auto.
    + unfold node_eqb. now apply Z.eqb_eq.
    + exists st, n, l. auto.
Qed.

(** *** The search inside an outlined grid returns *)

Section Outlined.

Hypothesis costs_length : grid_costs p costs.
Hypothesis costs_outlined : outlined p costs.
Hypothesis fuel_jump_enough : nx_ p + ny_ p <= Z.of_nat fuel_jump.
Hypothesis start_valid : valid_id p (id start) = true.
Hypothesis start_root : valid_id p (pid start) = false.

Lemma jump_outlined current m :
  interior p (x current) (y current) -> unit_motion m ->
  exists r, jump fuel_jump p costs goal current m = Ok r /\
            (r = sentinel \/ interior p (x r) (y r)).
Proof.
  intros Hint Hm. apply jump_walled; auto.
  pose proof (room_bound p current m Hint Hm). lia.
Qed.

Lemma explore_total current closed motions :
  interior p (x current) (y current) ->
  (forall m, In m motions -> unit_motion m) ->
  exists jp_list, explore_ current closed motions = Ok jp_list.
Proof.
  intros Hint. induction motions as [|m motions IH]; intros Hm; simpl.
  - eauto.
  - destruct (jump_outlined current m Hint) as (r & -> & _);
      [apply Hm; now left|].
    destruct IH as [rest ->]; [intros m' Hm'; apply Hm; now right|].
    simpl. destruct (negb (id r =? -1) && negb (closed_mem closed r)); eauto.
Qed.

Lemma explore_interior current closed motions jp_list jp :
  interior p (x current) (y current) ->
  (forall m, In m motions -> unit_motion m) ->
  explore_ current closed motions = Ok jp_list -> In jp jp_list ->
  interior p (x jp) (y jp).
Proof.
  intros Hint Hm He Hjp. apply explore_spec in He as [_ He].
  destruct (He jp Hjp) as (_ & _ & m & r & Hin & Hj & Hid & -> & -> & _).
  destruct (jump_outlined current m Hint (Hm m Hin)) as (r' & Hj' & Hr').
  assert (r' = r) by congruence. subst r'.
  destruct Hr' as [->|Hr']; [now elim Hid | assumption].
Qed.

Lemma closed_bounded st :
  search_invariant p start goal st ->
  Z.of_nat (length (closed_list st)) <= ns_ p.
Proof.
  intros (Hnd & Hclosed & _).
  pose proof (proj1 (valid_id_range _ _) start_valid) as Hns.
  rewrite <- (length_map id). apply NoDup_bounded_length; [lia|assumption|].
  intros i Hi. apply in_map_iff in Hi as [n [<- Hn]].
  apply valid_id_range. now apply Hclosed.
Qed.

Lemma iteration_total st :
  search_invariant p start goal st ->
  (forall n, In n (open_list st) -> interior p (x n) (y n)) ->
  (exists found path e, iteration_ st = Ok (Return found path e)) \/
  (exists st', iteration_ st = Ok (Continue st') /\
               (forall n, In n (open_list st') -> interior p (x n) (y n)) /\
               passes_left_ st' < passes_left_ st).
Proof.
  intros Hinv Hint. pose proof Hinv as (Hnd & Hclosed & Hopen).
  destruct (open_list st) as [|n l] eqn:Ho.
  - left. unfold iteration. rewrite Ho. eauto.
  - set (current := fst (pop_top n l)).
    assert (Hpop : forall m, In m (current :: snd (pop_top n l)) ->
                             In m (n :: l))
      by (intros m Hm; now apply pop_top_In).
    destruct (closed_mem (closed_list st) current) eqn:Hc.
    + right. rewrite (iteration_discard st n l Ho Hc).
      eexists. split; [reflexivity|]. split.
      * simpl. intros m Hm. apply Hint, Hpop. now right.
      * unfold passes_left. cbn [open_list closed_list].
        rewrite pop_top_length, Ho. cbn [length]. lia.
    + destruct (Hopen current) as [_ Hparent]; [apply Hpop; now left|].
      destruct (ancestry_of_child p (closed_list st) start current
                  start_root Hc
                  (fun m Hm => proj2 (proj2 (Hclosed m Hm))) Hparent)
        as (path & Ha & _ & _ & Hlen).
      destruct (node_eqb current goal) eqn:Hg.
      * left. unfold iteration. rewrite Ho.
        fold current. destruct (pop_top n l) as [c rest] eqn:Hp.
        simpl in current. subst current. rewrite Hc, Hg.
        rewrite (closed_insert_new _ _ Hc).
        unfold _convertClosedListToPath.
        unfold node_eqb in Hg. apply Z.eqb_eq in Hg.
        rewrite <- Hg, closed_find_head.
        rewrite (backtrack_ancestry _ _ _ _ Ha) by lia.
        simpl. eauto.
      * right.
        destruct (explore_total current (closed_list st) getMotion)
          as [jps He]; [apply Hint, Hpop; now left | apply getMotion_unit|].
        assert (Hit : iteration_ st
                      = Ok (Continue
                              (mkState (fst (push_all_ jps (snd (pop_top n l)) (expand st)))
                                       (current :: closed_list st)
                                       (snd (push_all_ jps (snd (pop_top n l)) (expand st)))))).
        { unfold iteration. rewrite Ho. subst current.
          destruct (pop_top n l) as [c rest]. simpl in *.
          rewrite Hc, Hg, He. simpl.
          rewrite (closed_insert_new _ _ Hc).
          now destruct (push_all_ jps rest (expand st)). }
        eexists. split; [exact Hit|]. split.
        -- simpl. intros m Hm. apply push_all_In in Hm as [Hm|Hm].
           ++ apply Hint, Hpop. now right.
           ++ eapply explore_interior; eauto using getMotion_unit.
              apply Hint, Hpop. now left.
        -- pose proof (search_invariant_step st _ start_root Hinv Hit) as Hinv'.
           apply closed_bounded in Hinv'.
           pose proof (push_all_length jps (snd (pop_top n l)) (expand st)) as Hlen'.
           apply explore_spec in He as [Hjps _].
           rewrite pop_top_length in Hlen'.
           unfold passes_left. cbn [open_list closed_list length] in *.
           rewrite Ho. cbn [length]. cbn [getMotion length] in Hjps. lia.
Qed.

Lemma search_total fuel :
  forall st,
    reachable_ st ->
    (forall n, In n (open_list st) -> interior p (x n) (y n)) ->
    passes_left_ st < Z.of_nat fuel ->
    exists found path e, search_ fuel st = Ok (found, path, e).
Proof.
  induction fuel as [|fuel IH]; intros st Hr Hint Hfuel.
  - pose proof (closed_bounded st (reachable_invariant st start_valid start_root Hr)).
    unfold passes_left in Hfuel. lia.
  - simpl.
    destruct (iteration_total st (reachable_invariant st start_valid start_root Hr) Hint)
      as [(found & path & e & ->)|(st' & Hit & Hint' & Hless)].
    + simpl. eauto.
    + rewrite Hit. simpl. apply IH; [|assumption|lia].
      eapply reach_next; eauto.
Qed.

Lemma plan_total fuel :
  interior p (x start) (y start) ->
  8 * ns_ p + 2 <= Z.of_nat fuel ->
  exists found path e, plan_ fuel = Ok (found, path, e).
Proof.
  intros Hint Hfuel. unfold plan. apply search_total.
  - constructor.
  - intros n [<-|[]]. assumption.
  - unfold passes_left, initial. simpl length. lia.
Qed.

End Outlined.

(** When [plan] returns, it does so in one of two ways that exclude each
    other. Either it
    returns found = true with a non-empty path that runs from the start to
    the goal, each cell the parent of the next, and this only by popping
    the goal from the open list; or the open list has run empty without the
    goal having been popped and it returns found = false with the empty
    path. Nothing else is returned; and inside an outlined grid, from an
    interior start, [plan] does return. The start is a cell of the grid
    and carries no valid parent, as the data model has it. *)
Theorem plan_two_outcomes :
  valid_id p (id start) = true ->
  valid_id p (pid start) = false ->
  (forall fuel found path e,
     plan_ fuel = Ok (found, path, e) ->
     goal_popped pop_top fuel_jump p costs start goal found path \/
     open_exhausted pop_top fuel_jump p costs start goal found path) /\
  (forall found path,
     ~ (goal_popped pop_top fuel_jump p costs start goal found path /\
        open_exhausted pop_top fuel_jump p costs start goal found path)) /\
  (grid_costs p costs -> outlined p costs ->
   interior p (x start) (y start) ->
   nx_ p + ny_ p <= Z.of_nat fuel_jump ->
   forall fuel, 8 * ns_ p + 2 <= Z.of_nat fuel ->
     exists found path e, plan_ fuel = Ok (found, path, e)).
Proof.
  intros Hs Hroot. split; [|split].
  - intros fuel found path e. now apply plan_outcome.
  - intros found path [[Ht _] [Hf _]]. congruence.
  - intros Hlen Hout Hint Hfuel fuel Hloop. now apply plan_total.
Qed.

End SearchProperties.

(** ** A concrete queue *)

Lemma pop_min_perm n l :
  Permutation (n :: l) (fst (pop_min n l) :: snd (pop_min n l)).
Proof.
  revert n. induction l as [|m l IH]; intros n; simpl; [reflexivity|].
  specialize (IH m). destruct (pop_min m l) as [best rest]. simpl in IH.
  destruct (h_cost n <=? h_cost best); simpl; [reflexivity|].
  rewrite IH. apply perm_swap.
Qed.

Lemma pop_min_least n l m :
  In m (n :: l) -> h_cost (fst (pop_min n l)) <= h_cost m.
Proof.
  revert n m. induction l as [|k l IH]; intros n m Hin.
  - simpl in *. destruct Hin as [<-|[]]. lia.
  - simpl. pose proof (IH k) as IHk.
    destruct (pop_min k l) as [best rest]. simpl in IHk.
    destruct (Z.leb_spec (h_cost n) (h_cost best)) as [Hle|Hgt]; simpl.
    + destruct Hin as [<-|Hin]; [lia|]. specialize (IHk m Hin). lia.
    + destruct Hin as [<-|Hin]; [lia|]. now apply IHk.
Qed.

Lemma plan_start_is_goal_witness :
  iteration pop_min 0 (planner 3 3) notch_grid
    (cell (planner 3 3) 1 1) (cell (planner 3 3) 1 1)
    (initial (cell (planner 3 3) 1 1))
  = Ok (Return true [cell (planner 3 3) 1 1] [cell (planner 3 3) 1 1]) /\
  plan pop_min 0 (planner 3 3) notch_grid
    (cell (planner 3 3) 1 1) (cell (planner 3 3) 1 1) 1
  = Ok (true, [cell (planner 3 3) 1 1], [cell (planner 3 3) 1 1]).
Proof.
  apply (plan_start_is_goal pop_min pop_min_perm 0 (planner 3 3) notch_grid
           (cell (planner 3 3) 1 1) (cell (planner 3 3) 1 1) 0).
  - reflexivity.
  - reflexivity.
Defined.

(** In the walled grid, from (1,1) to the goal (2,3), the search expands
    the start and then the cell (2,2). *)
Lemma closed_never_reexpanded_witness :
  NoDup (map id (expansions pop_min 8 (planner 5 5) walled_grid
                   (cell (planner 5 5) 1 1) (cell (planner 5 5) 2 3) 4
                   (initial (cell (planner 5 5) 1 1)))).
Proof.
  apply (closed_never_reexpanded pop_min 8 (planner 5 5) walled_grid
           (cell (planner 5 5) 1 1) (cell (planner 5 5) 2 3)).
Defined.

Lemma walled_grid_outlined : outlined (planner 5 5) walled_grid.
Proof.
  intros cx cy [Hx Hy] Hno. unfold interior in Hno. simpl in *.
  assert (Hcx : cx = 0 \/ cx = 1 \/ cx = 2 \/ cx = 3 \/ cx = 4) by lia.
  assert (Hcy : cy = 0 \/ cy = 1 \/ cy = 2 \/ cy = 3 \/ cy = 4) by lia.
  destruct Hcx as [->|[->|[->|[->| ->]]]];
    destruct Hcy as [->|[->|[->|[->| ->]]]];
    try reflexivity; exfalso; apply Hno; lia.
Qed.

(** In the walled grid, from (1,1) to the goal (2,3): the path found goes
    through (2,2); and with the goal on the wall the search returns too. *)
Lemma plan_two_outcomes_witness :
  (goal_popped pop_min 8 (planner 5 5) walled_grid
     (cell (planner 5 5) 1 1) (cell (planner 5 5) 2 3)
     true [cell (planner 5 5) 1 1; mkNode 2 2 1 12 6; mkNode 2 3 0 17 12] \/
   open_exhausted pop_min 8 (planner 5 5) walled_grid
     (cell (planner 5 5) 1 1) (cell (planner 5 5) 2 3)
     true [cell (planner 5 5) 1 1; mkNode 2 2 1 12 6; mkNode 2 3 0 17 12]) /\
  (exists found path e,
     plan pop_min 10 (planner 5 5) walled_grid
       (cell (planner 5 5) 1 1) (cell (planner 5 5) 4 4) 202
     = Ok (found, path, e)).
Proof.
  split.
  - apply (proj1 (plan_two_outcomes pop_min pop_min_perm 8 (planner 5 5)
                    walled_grid (cell (planner 5 5) 1 1) (cell (planner 5 5) 2 3)
                    eq_refl eq_refl)
             5%nat true _
             [cell (planner 5 5) 1 1; mkNode 2 2 1 12 6; mkNode 2 3 0 17 12]).
    reflexivity.
  - apply (proj2 (proj2 (plan_two_outcomes pop_min pop_min_perm 10 (planner 5 5)
                           walled_grid (cell (planner 5 5) 1 1)
                           (cell (planner 5 5) 4 4) eq_refl eq_refl))).
    + reflexivity.
    + exact walled_grid_outlined.
    + unfold interior. simpl. lia.
    + simpl. lia.
    + simpl. lia.
Defined.

(** * Further properties of the jump function *)

Lemma step_run p costs goal point m :
  valid_id p (id (step p goal point m)) = true ->
  blocked p costs (id (step p goal point m)) = Ok false ->
  clear_run p costs point m 1.
Proof.
  intros Hv Hb j Hj. assert (j = 1) by lia. subst j.
  replace (x point + 1 * x m) with (x point + x m) by lia.
  replace (y point + 1 * y m) with (y point + y m) by lia.
  split; assumption.
Qed.

Lemma run_next p costs goal point m k :
  1 <= k ->
  valid_id p (id (step p goal point m)) = true ->
  blocked p costs (id (step p goal point m)) = Ok false ->
  clear_run p costs (step p goal point m) m k ->
  clear_run p costs point m (k + 1).
Proof.
  intros Hk Hv Hb Hrun j Hj.
  destruct (Z.eq_dec j 1) as [->|Hne].
  - now apply (step_run p costs goal point m).
  - specialize (Hrun (j - 1) ltac:(lia)).
    unfold step, node_add in Hrun. cbn [x y] in Hrun.
    replace (x point + x m + (j - 1) * x m) with (x point + j * x m) in Hrun by lia.
    replace (y point + y m + (j - 1) * y m) with (y point + j * y m) in Hrun by lia.
    exact Hrun.
Qed.

Lemma jump_run fuel p costs goal :
  forall point m r,
    jump fuel p costs goal point m = Ok r ->
    r = sentinel \/
    exists k, 1 <= k /\
      x r = x point + k * x m /\ y r = y point + k * y m /\
      id r = grid2Index p (x r) (y r) /\ h_cost r = sqdist r goal /\
      clear_run p costs point m k.
Proof.
  induction fuel as [|fuel IH]; intros point m r H; [discriminate|].
  rewrite jump_S in H. unfold jump_from in H. rewrite bounds_test in H.
  destruct (valid_id p (id (step p goal point m))) eqn:Hv;
    cbn [negb] in H; [|left; congruence].
  destruct (blocked p costs (id (step p goal point m))) as [[]| |] eqn:Hb;
    simpl in H; try discriminate; [left; congruence|].
  assert (Hret : forall r', Ok (step p goal point m) = Ok r' ->
            r' = sentinel \/
            exists k, 1 <= k /\
              x r' = x point + k * x m /\ y r' = y point + k * y m /\
              id r' = grid2Index p (x r') (y r') /\ h_cost r' = sqdist r' goal /\
              clear_run p costs point m k).
  { intros r' E. injection E as <-. right. exists 1.
    split; [lia|].
    split; [unfold step, node_add; cbn [x]; lia|].
    split; [unfold step, node_add; cbn [y]; lia|].
    split; [reflexivity|]. split; [reflexivity|].
    now apply (step_run p costs goal point m). }
  destruct (node_eqb (step p goal point m) goal); [now apply Hret|].
  apply bind_Ok in H as [d [_ H]].
  destruct d; [now apply Hret|].
  apply bind_Ok in H as [f [_ H]].
  destruct f; [now apply Hret|].
  apply IH in H as [H|(k & Hk & Hx & Hy & Hid & Hh & Hrun)]; [now left|right].
  exists (k + 1). unfold step, node_add in Hx, Hy. cbn [x y] in Hx, Hy.
  split; [lia|]. split; [lia|]. split; [lia|].
  split; [assumption|]. split; [assumption|].
  now apply (run_next p costs goal point m k).
Qed.

(** X1. A node that [jump] returns, other than the sentinel, lies [k >= 1]
    steps from [point] along the motion; its id is the linear index of its
    coordinates, its [h_cost] the distance to the goal, and every cell
    stepped on from [point] to it passed the bounds test and was read below
    the obstacle threshold. *)
Theorem jump_walks_open_cells fuel p costs goal point m r :
  jump fuel p costs goal point m = Ok r ->
  id r <> -1 ->
  exists k, 1 <= k /\
    x r = x point + k * x m /\ y r = y point + k * y m /\
    id r = grid2Index p (x r) (y r) /\ h_cost r = sqdist r goal /\
    clear_run p costs point m k.
Proof.
  intros H Hid. apply jump_run in H as [->|H]; [now elim Hid | exact H].
Qed.

(** In the walled grid the walk from (1,1) along (+1,0) reaches the goal
    (3,1) in two steps. *)
Lemma jump_walks_open_cells_witness :
  exists k, 1 <= k /\
    3 = 1 + k * 1 /\ 1 = 1 + k * 0 /\
    8 = grid2Index (planner 5 5) 3 1 /\
    0 = sqdist (mkNode 3 1 0 8 7) (cell (planner 5 5) 3 1) /\
    clear_run (planner 5 5) walled_grid (cell (planner 5 5) 1 1) (direction 1 0) k.
Proof.
  apply (jump_walks_open_cells 2 (planner 5 5) walled_grid
           (cell (planner 5 5) 3 1) (cell (planner 5 5) 1 1) (direction 1 0)
           (mkNode 3 1 0 8 7)).
  - reflexivity.
  - discriminate.
Defined.

(** * Further properties of the forced-neighbour test *)

Lemma blocked_ext p costs costs' i :
  read costs i = read costs' i -> blocked p costs i = blocked p costs' i.
Proof. unfold blocked. now intros ->. Qed.

Lemma forced_by_ext p costs costs' a b :
  (forall c, In c [a; b] ->
     read costs (grid2Index p (fst c) (snd c))
     = read costs' (grid2Index p (fst c) (snd c))) ->
  forced_by p costs a b = forced_by p costs' a b.
Proof.
  intros H. unfold forced_by.
  rewrite (blocked_ext p costs costs' _ (H a ltac:(simpl; auto))).
  rewrite (blocked_ext p costs costs' _ (H b ltac:(simpl; auto))).
  reflexivity.
Qed.

Lemma forced_either_ext p costs costs' a1 b1 a2 b2 :
  (forall c, In c [a1; b1; a2; b2] ->
     read costs (grid2Index p (fst c) (snd c))
     = read costs' (grid2Index p (fst c) (snd c))) ->
  forced_either p costs a1 b1 a2 b2 = forced_either p costs' a1 b1 a2 b2.
Proof.
  intros H. unfold forced_either.
  rewrite (forced_by_ext p costs costs' a1 b1)
    by (intros c Hc; apply H; simpl in *; tauto).
  rewrite (forced_by_ext p costs costs' a2 b2)
    by (intros c Hc; apply H; simpl in *; tauto).
  reflexivity.
Qed.

Lemma detectForceNeighbor_ext p costs costs' point m :
  (forall c, In c (probed_cells point m) ->
     read costs (grid2Index p (fst c) (snd c))
     = read costs' (grid2Index p (fst c) (snd c))) ->
  detectForceNeighbor p costs point m = detectForceNeighbor p costs' point m.
Proof.
  unfold detectForceNeighbor, probed_cells.
  destruct (x m =? 0), (y m =? 0); simpl; intros H; try reflexivity.
  - now rewrite (forced_either_ext p costs costs' _ _ _ _ H).
  - now rewrite (forced_either_ext p costs costs' _ _ _ _ H).
  - now rewrite (forced_either_ext p costs costs' _ _ _ _ H).
Qed.

(** X2. The forced-neighbour test is local: for a unit motion its answer,
    fault included, is the same on two cost grids that read alike on the
    eight cells around the queried cell. *)
Theorem detectForceNeighbor_local p costs costs' point m :
  unit_motion m ->
  (forall dx dy, -1 <= dx <= 1 -> -1 <= dy <= 1 -> (dx <> 0 \/ dy <> 0) ->
     read costs (grid2Index p (x point + dx) (y point + dy))
     = read costs' (grid2Index p (x point + dx) (y point + dy))) ->
  detectForceNeighbor p costs point m = detectForceNeighbor p costs' point m.
Proof.
  intros (Hx & Hy & Hnz) H. apply detectForceNeighbor_ext.
  unfold probed_cells. intros c Hc.
  destruct (Z.eqb_spec (x m) 0) as [Ex|Ex], (Z.eqb_spec (y m) 0) as [Ey|Ey];
    simpl in Hc;
    repeat (destruct Hc as [<-|Hc]); try contradiction; simpl.
  all: match goal with
       | |- read _ (grid2Index _ ?cx ?cy) = _ =>
         replace cx with (x point + (cx - x point)) by lia;
         replace cy with (y point + (cy - y point)) by lia;
         apply H; lia
       end.
Qed.

(** The notch grid with another cost at its centre (1,1), the queried cell. *)
Lemma detectForceNeighbor_local_witness :
  detectForceNeighbor (planner 3 3) notch_grid (cell (planner 3 3) 1 1)
    (direction 1 0)
  = detectForceNeighbor (planner 3 3) [0; 0; 0;  0; 100; 0;  0; 254; 0]
      (cell (planner 3 3) 1 1) (direction 1 0).
Proof.
  apply (detectForceNeighbor_local (planner 3 3) notch_grid
           [0; 0; 0;  0; 100; 0;  0; 254; 0]
           (cell (planner 3 3) 1 1) (direction 1 0)).
  - unfold unit_motion. simpl. lia.
  - intros dx dy Hdx Hdy Hnz.
    assert (Hx : dx = -1 \/ dx = 0 \/ dx = 1) by lia.
    assert (Hy : dy = -1 \/ dy = 0 \/ dy = 1) by lia.
    destruct Hx as [->|[->| ->]]; destruct Hy as [->|[->| ->]];
      try reflexivity; lia.
Defined.

Lemma forced_rule_cells p costs point m :
  forced_neighbor_rule p costs (x point) (y point) (x m) (y m) ->
  exists a b, In a (probed_cells point m) /\ In b (probed_cells point m) /\
    blocked_at p costs (fst a) (snd a) /\ open_at p costs (fst b) (snd b).
Proof.
  unfold forced_neighbor_rule, probed_cells.
  intros [(Hx & Hy & H)|[(Hx & Hy & H)|(Hx & Hy & H)]].
  - apply Z.eqb_neq in Hx. apply Z.eqb_eq in Hy. rewrite Hx, Hy. simpl.
    destruct H as [[Hb Ho]|[Hb Ho]].
    + exists (x point, y point + 1), (x point + x m, y point + 1). auto 10.
    + exists (x point, y point - 1), (x point + x m, y point - 1). auto 10.
  - apply Z.eqb_eq in Hx. apply Z.eqb_neq in Hy. rewrite Hx, Hy. simpl.
    destruct H as [[Hb Ho]|[Hb Ho]].
    + exists (x point + 1, y point), (x point + 1, y point + y m). auto 10.
    + exists (x point - 1, y point), (x point - 1, y point + y m). auto 10.
  - apply Z.eqb_neq in Hx. apply Z.eqb_neq in Hy. rewrite Hx, Hy. simpl.
    destruct H as [[Hb Ho]|[Hb Ho]].
    + exists (x point - x m, y point), (x point - x m, y point + y m). auto 10.
    + exists (x point, y point - y m), (x point + x m, y point - y m). auto 10.
Qed.

(** X3. A forced neighbour takes an obstacle: when the test answers [true],
    one of the cells it probes is an obstacle and another is open; and when
    every cell it probes is open it answers [false]. *)
Theorem detectForceNeighbor_needs_obstacle p costs point m :
  (detectForceNeighbor p costs point m = Ok true ->
   exists a b, In a (probed_cells point m) /\ In b (probed_cells point m) /\
     blocked_at p costs (fst a) (snd a) /\ open_at p costs (fst b) (snd b)) /\
  ((forall c, In c (probed_cells point m) -> open_at p costs (fst c) (snd c)) ->
   detectForceNeighbor p costs point m = Ok false).
Proof.
  split.
  - intros H. apply forced_rule_cells.
    now apply (detectForceNeighbor_spec _ _ _ _ _ H).
  - intros Hopen.
    destruct (detectForceNeighbor_readable p costs point m) as [b Hb].
    { intros c Hc. destruct (Hopen c Hc) as [v [Hv _]]. eauto. }
    destruct b; [|assumption]. exfalso.
    pose proof (proj1 (detectForceNeighbor_spec _ _ _ _ _ Hb) eq_refl) as Hrule.
    apply forced_rule_cells in Hrule as (a & _ & Ha & _ & Hblocked & _).
    eapply blocked_not_open; eauto.
Qed.

(** In the notch the obstacle is (1,2) and the open cell (2,2). *)
Lemma detectForceNeighbor_needs_obstacle_witness :
  exists a b,
    In a (probed_cells (cell (planner 3 3) 1 1) (direction 1 0)) /\
    In b (probed_cells (cell (planner 3 3) 1 1) (direction 1 0)) /\
    blocked_at (planner 3 3) notch_grid (fst a) (snd a) /\
    open_at (planner 3 3) notch_grid (fst b) (snd b).
Proof.
  apply (proj1 (detectForceNeighbor_needs_obstacle (planner 3 3) notch_grid
                  (cell (planner 3 3) 1 1) (direction 1 0))).
  reflexivity.
Defined.

(** * Further properties inside an outlined grid *)

Lemma jump_outlined_result p costs goal fuel point m r :
  grid_costs p costs -> outlined p costs ->
  interior p (x point) (y point) -> unit_motion m ->
  jump fuel p costs goal point m = r -> r <> OutOfFuel ->
  exists n, r = Ok n /\ (n = sentinel \/ interior p (x n) (y n)).
Proof.
  intros Hlen Hout Hint Hm Hj Hr.
  set (big := Nat.max fuel (Z.to_nat (room p point m))).
  destruct (jump_walled p costs goal Hlen Hout big point m Hint Hm)
    as (n & Hn & Hprop); [unfold big; lia|].
  exists n. split; [|assumption].
  rewrite <- Hn. symmetry.
  apply (jump_fuel_le fuel big); [unfold big; lia | assumption | assumption].
Qed.

(** X4. Inside an outlined grid (border cells obstacles, one byte per cell)
    a jump from an interior cell along a unit motion never reads outside the
    array; with a call stack of [room] levels, at most nx + ny, it returns,
    and what it returns is the sentinel or an open interior cell whose id is
    the index of its coordinates. *)
Theorem jump_inside_outlined p costs goal fuel point m :
  grid_costs p costs -> outlined p costs ->
  interior p (x point) (y point) -> unit_motion m ->
  room p point m <= nx_ p + ny_ p /\
  (forall i, jump fuel p costs goal point m <> OutOfBounds i) /\
  (room p point m <= Z.of_nat fuel ->
   exists r, jump fuel p costs goal point m = Ok r /\
     (r = sentinel \/
      (interior p (x r) (y r) /\ id r = grid2Index p (x r) (y r) /\
       open_at p costs (x r) (y r)))).
Proof.
  intros Hlen Hout Hint Hm. split; [now apply room_bound|]. split.
  - intros i Hi.
    destruct (jump_outlined_result p costs goal fuel point m _ Hlen Hout Hint Hm Hi)
      as (n & Hn & _); discriminate.
  - intros Hfuel.
    destruct (jump_walled p costs goal Hlen Hout fuel point m Hint Hm Hfuel)
      as (r & Hr & Hprop).
    exists r. split; [assumption|].
    destruct Hprop as [->|Hin]; [now left|].
    destruct (jump_result _ _ _ _ _ _ _ Hr) as [->|(Hv & Hb & Hid & _)];
      [now left|right].
    split; [assumption|]. split; [assumption|].
    apply blocked_false. now rewrite <- Hid.
Qed.

(** In the walled grid the diagonal jump from (1,1), the goal at (3,2),
    returns the cell (2,2). *)
Lemma jump_inside_outlined_witness :
  exists r,
    jump 6 (planner 5 5) walled_grid (cell (planner 5 5) 3 2)
         (cell (planner 5 5) 1 1) (direction 1 1) = Ok r /\
    (r = sentinel \/
     (interior (planner 5 5) (x r) (y r) /\
      id r = grid2Index (planner 5 5) (x r) (y r) /\
      open_at (planner 5 5) walled_grid (x r) (y r))).
Proof.
  apply (jump_inside_outlined (planner 5 5) walled_grid (cell (planner 5 5) 3 2)
           6 (cell (planner 5 5) 1 1) (direction 1 1)).
  - reflexivity.
  - exact walled_grid_outlined.
  - unfold interior. simpl. lia.
  - unfold unit_motion. simpl. lia.
  - unfold room, room_along. simpl. lia.
Defined.

(** * Further properties of the search loop *)

(** ** The two loops of an expansion *)

Lemma explore_nodes fuel_jump p costs goal current closed motions :
  forall jp_list,
    explore fuel_jump p costs goal current closed motions = Ok jp_list ->
    forall jp, In jp jp_list ->
      exists m r, In m motions /\
        jump fuel_jump p costs goal current m = Ok r /\
        id r <> -1 /\ closed_mem closed r = false /\
        jp = mkNode (x r) (y r) (h_cost r) (id r) (id current).
Proof.
  induction motions as [|m motions IH]; intros jp_list H jp Hjp; simpl in H.
  - injection H as <-. contradiction.
  - apply bind_Ok in H as [r [Hr H]].
    apply bind_Ok in H as [rest [Hrest H]].
    assert (Hold : In jp rest ->
              exists m0 r0, In m0 (m :: motions) /\
                jump fuel_jump p costs goal current m0 = Ok r0 /\
                id r0 <> -1 /\ closed_mem closed r0 = false /\
                jp = mkNode (x r0) (y r0) (h_cost r0) (id r0) (id current)).
    { intros Hin. destruct (IH _ Hrest jp Hin) as (m0 & r0 & Hm0 & Hrest0).
      exists m0, r0. split; [now right | assumption]. }
    destruct (negb (id r =? -1) && negb (closed_mem closed r)) eqn:Hkeep;
      injection H as <-; [|now apply Hold].
    destruct Hjp as [<-|Hjp]; [|now apply Hold].
    apply andb_true_iff in Hkeep as [Hid Hcl].
    apply negb_true_iff in Hid. apply Z.eqb_neq in Hid.
    apply negb_true_iff in Hcl.
    exists m, r. split; [now left|]. split; [assumption|].
    split; [assumption|]. split; [assumption|].
    destruct (jump_run _ _ _ _ _ _ _ Hr) as [->|(k & _ & _ & _ & _ & Hh & _)];
      [now elim Hid|].
    now rewrite Hh.
Qed.

(** Every motion was tried, and a jump point it gave is closed already or
    is in the list. *)
Lemma explore_jumps fuel_jump p costs goal current closed motions :
  forall jp_list,
    explore fuel_jump p costs goal current closed motions = Ok jp_list ->
    forall m, In m motions ->
      exists r, jump fuel_jump p costs goal current m = Ok r /\
        (id r = -1 \/ closed_mem closed r = true \/
         exists jp, In jp jp_list /\ id jp = id r).
Proof.
  induction motions as [|m0 motions IH]; intros jp_list H m Hm; simpl in H.
  - contradiction.
  - apply bind_Ok in H as [r [Hr H]].
    apply bind_Ok in H as [rest [Hrest H]].
    assert (Hold : In m motions ->
              exists r0, jump fuel_jump p costs goal current m = Ok r0 /\
                (id r0 = -1 \/ closed_mem closed r0 = true \/
                 exists jp, In jp jp_list /\ id jp = id r0)).
    { intros Hin. destruct (IH _ Hrest m Hin) as (r0 & Hr0 & Hcase).
      exists r0. split; [assumption|].
      destruct Hcase as [Hc|[Hc|(jp & Hjp & Hid)]]; auto.
      right. right. exists jp. split; [|assumption].
      destruct (negb (id r =? -1) && negb (closed_mem closed r));
        injection H as <-; simpl; auto. }
    destruct Hm as [<-|Hm]; [|now apply Hold].
    exists r. split; [assumption|].
    destruct (id r =? -1) eqn:Hid; [left; now apply Z.eqb_eq|].
    destruct (closed_mem closed r) eqn:Hcl; [auto|].
    simpl in H. injection H as <-.
    right. right. eexists. split; [now left | reflexivity].
Qed.

Lemma push_all_keeps goal jp_list :
  forall open e n, In n open -> In n (fst (push_all goal jp_list open e)).
Proof.
  induction jp_list as [|jp jp_list IH]; intros open e n Hin; simpl.
  - assumption.
  - destruct (node_eqb jp goal); simpl.
    + apply in_or_app. now left.
    + apply IH. apply in_or_app. now left.
Qed.

Lemma push_all_trace goal jp_list :
  forall open e,
    (forall n, In n e -> In n (snd (push_all goal jp_list open e))) /\
    (forall n, In n (snd (push_all goal jp_list open e)) -> In n e \/ In n jp_list) /\
    hd_error (snd (push_all goal jp_list open e)) = hd_error (e ++ jp_list) /\
    (incl open e ->
     incl (fst (push_all goal jp_list open e)) (snd (push_all goal jp_list open e))).
Proof.
  induction jp_list as [|jp jp_list IH]; intros open e; simpl.
  - rewrite app_nil_r. repeat split; auto.
  - assert (Hhd : hd_error (e ++ jp :: jp_list) = hd_error ((e ++ [jp]) ++ jp_list))
      by (now rewrite <- app_assoc).
    assert (Hincl : incl open e -> incl (open ++ [jp]) (e ++ [jp])).
    { intros H n Hn. apply in_app_or in Hn as [Hn|Hn]; apply in_or_app; auto. }
    destruct (node_eqb jp goal); simpl.
    + split; [intros n Hn; apply in_or_app; now left|].
      split; [intros n Hn; apply in_app_or in Hn as [Hn|[<-|[]]]; auto|].
      split; [destruct e; reflexivity | exact Hincl].
    + destruct (IH (open ++ [jp]) (e ++ [jp])) as (H1 & H2 & H3 & H4).
      split; [intros n Hn; apply H1; apply in_or_app; now left|].
      split.
      * intros n Hn. apply H2 in Hn as [Hn|Hn]; [|auto].
        apply in_app_or in Hn as [Hn|[<-|[]]]; auto.
      * split; [now rewrite H3, Hhd | auto].
Qed.

(** The pushing stops early only on a node equal to the goal. *)
Lemma push_all_complete goal jp_list :
  forall open e,
    (exists g, In g (fst (push_all goal jp_list open e)) /\ node_eqb g goal = true)
    \/ (forall jp, In jp jp_list -> In jp (fst (push_all goal jp_list open e))).
Proof.
  induction jp_list as [|jp jp_list IH]; intros open e; simpl.
  - right. contradiction.
  - destruct (node_eqb jp goal) eqn:Hg; simpl.
    + left. exists jp. split; [apply in_or_app; simpl; auto | assumption].
    + destruct (IH (open ++ [jp]) (e ++ [jp])) as [H|H]; [now left|right].
      intros n [<-|Hn]; [|now apply H].
      apply push_all_keeps. apply in_or_app. simpl. auto.
Qed.

(** Every motion was tried, and a jump point it gave that is neither the
    sentinel nor closed is in the list, with the expanded node as parent. *)
Lemma explore_stages fuel_jump p costs goal current closed motions :
  forall jp_list,
    explore fuel_jump p costs goal current closed motions = Ok jp_list ->
    forall m, In m motions ->
      exists r, jump fuel_jump p costs goal current m = Ok r /\
        (id r <> -1 -> closed_mem closed r = false ->
         In (mkNode (x r) (y r) (h_cost r) (id r) (id current)) jp_list).
Proof.
  induction motions as [|m0 motions IH]; intros jp_list H m Hm; simpl in H.
  - contradiction.
  - apply bind_Ok in H as [r [Hr H]].
    apply bind_Ok in H as [rest [Hrest H]].
    assert (Hrest_in : forall n, In n rest -> In n jp_list).
    { intros n Hn.
      destruct (negb (id r =? -1) && negb (closed_mem closed r));
        injection H as <-; simpl; auto. }
    destruct Hm as [<-|Hm].
    + exists r. split; [assumption|]. intros Hid Hcl.
      destruct (jump_run _ _ _ _ _ _ _ Hr) as [->|(k & _ & _ & _ & _ & Hh & _)];
        [now elim Hid|].
      apply Z.eqb_neq in Hid. rewrite Hid, Hcl in H. simpl in H.
      injection H as <-. left. now rewrite Hh.
    + destruct (IH _ Hrest m Hm) as (r0 & Hr0 & Hin).
      exists r0. split; [assumption|]. auto.
Qed.

(** The list staged is, in the order of the motions, the jump results that
    pass the test of the source, each with its parent set. *)
Lemma explore_filter fuel_jump p costs goal current closed motions :
  forall jp_list,
    explore fuel_jump p costs goal current closed motions = Ok jp_list ->
    exists rs,
      Forall2 (fun m r => jump fuel_jump p costs goal current m = Ok r) motions rs /\
      jp_list =
        map (fun r => mkNode (x r) (y r) (h_cost r) (id r) (id current))
            (filter (fun r => negb (id r =? -1) && negb (closed_mem closed r)) rs).
Proof.
  induction motions as [|m motions IH]; intros jp_list H; simpl in H.
  - injection H as <-. exists []. split; [constructor | reflexivity].
  - apply bind_Ok in H as [r [Hr H]].
    apply bind_Ok in H as [rest [Hrest H]].
    destruct (IH _ Hrest) as (rs & Hall & ->).
    exists (r :: rs). split; [now constructor|].
    cbn [filter].
    destruct (negb (id r =? -1) && negb (closed_mem closed r)) eqn:Hkeep;
      injection H as <-; [|reflexivity].
    cbn [map]. f_equal. f_equal.
    apply andb_true_iff in Hkeep as [Hid _].
    apply negb_true_iff in Hid. apply Z.eqb_neq in Hid.
    destruct (jump_run _ _ _ _ _ _ _ Hr) as [->|(k & _ & _ & _ & _ & Hh & _)];
      [now elim Hid|].
    now rewrite Hh.
Qed.

(** X5. An expansion jumps along every motion, and what it stages is exactly
    this: for each motion whose jump gave a node other than the sentinel and
    not yet closed, that very node with its parent set to the expanded node
    ([h_cost], which the source computes again, is unchanged), in the order
    of the motions, and nothing else. So every staged node comes from such
    a jump, every such jump has its node staged, and no more nodes are
    staged than there are motions. *)
Theorem explore_relabels_jump_points fuel_jump p costs goal current closed motions jp_list :
  explore fuel_jump p costs goal current closed motions = Ok jp_list ->
  (length jp_list <= length motions)%nat /\
  (forall jp, In jp jp_list ->
     exists m r, In m motions /\
       jump fuel_jump p costs goal current m = Ok r /\
       id r <> -1 /\ closed_mem closed r = false /\
       jp = mkNode (x r) (y r) (h_cost r) (id r) (id current)) /\
  (forall m, In m motions ->
     exists r, jump fuel_jump p costs goal current m = Ok r /\
       (id r <> -1 -> closed_mem closed r = false ->
        In (mkNode (x r) (y r) (h_cost r) (id r) (id current)) jp_list)) /\
  (exists rs,
     Forall2 (fun m r => jump fuel_jump p costs goal current m = Ok r) motions rs /\
     jp_list =
       map (fun r => mkNode (x r) (y r) (h_cost r) (id r) (id current))
           (filter (fun r => negb (id r =? -1) && negb (closed_mem closed r)) rs)).
Proof.
  intros H. split; [|split; [|split]].
  - now apply (explore_spec _ _ _ _ _ _ _ _ H).
  - now apply explore_nodes.
  - now apply explore_stages.
  - now apply explore_filter.
Qed.

(** In the walled grid, expanding (1,1) towards the goal (2,3): of the eight
    jumps only the one along (+1,+1) gives a node, (2,2), and it is staged. *)
Lemma explore_relabels_jump_points_witness :
  (length [mkNode 2 2 1 12 6] <= length getMotion)%nat /\
  (forall jp, In jp [mkNode 2 2 1 12 6] ->
     exists m r, In m getMotion /\
       jump 8 (planner 5 5) walled_grid (cell (planner 5 5) 2 3)
            (cell (planner 5 5) 1 1) m = Ok r /\
       id r <> -1 /\ closed_mem [] r = false /\
       jp = mkNode (x r) (y r) (h_cost r) (id r) (id (cell (planner 5 5) 1 1))) /\
  (forall m, In m getMotion ->
     exists r, jump 8 (planner 5 5) walled_grid (cell (planner 5 5) 2 3)
                    (cell (planner 5 5) 1 1) m = Ok r /\
       (id r <> -1 -> closed_mem [] r = false ->
        In (mkNode (x r) (y r) (h_cost r) (id r) (id (cell (planner 5 5) 1 1)))
           [mkNode 2 2 1 12 6])) /\
  (exists rs,
     Forall2 (fun m r => jump 8 (planner 5 5) walled_grid (cell (planner 5 5) 2 3)
                              (cell (planner 5 5) 1 1) m = Ok r) getMotion rs /\
     [mkNode 2 2 1 12 6] =
       map (fun r => mkNode (x r) (y r) (h_cost r) (id r)
                            (id (cell (planner 5 5) 1 1)))
           (filter (fun r => negb (id r =? -1) && negb (closed_mem [] r)) rs)).
Proof.
  apply (explore_relabels_jump_points 8 (planner 5 5) walled_grid
           (cell (planner 5 5) 2 3) (cell (planner 5 5) 1 1) [] getMotion).
  reflexivity.
Defined.

(** ** Walking back through the closed list *)

Lemma backtrack_incl p closed fuel :
  forall n acc path,
    backtrack fuel p closed n acc = Ok path ->
    incl path (n :: closed ++ acc).
Proof.
  induction fuel as [|fuel IH]; intros n acc path; simpl;
    destruct (valid_id p (pid n)); simpl; intros H; try discriminate.
  - injection H as <-. intros a [<-|Ha]; [now left|].
    right. apply in_or_app. now right.
  - destruct (closed_find closed (pid n)) as [parent|] eqn:Hf.
    + apply IH in H. apply closed_find_Some in Hf as [Hin _].
      intros a Ha. apply H in Ha as [<-|Ha].
      * right. apply in_or_app. now left.
      * apply in_app_or in Ha as [Ha|[<-|Ha]].
        -- right. apply in_or_app. now left.
        -- now left.
        -- right. apply in_or_app. now right.
    + injection H as <-. intros a [].
  - injection H as <-. intros a [<-|Ha]; [now left|].
    right. apply in_or_app. now right.
Qed.

Lemma convert_incl p closed start goal path :
  _convertClosedListToPath p closed start goal = Ok path -> incl path closed.
Proof.
  unfold _convertClosedListToPath.
  destruct (closed_find closed (id goal)) as [g|] eqn:Hf.
  - intros H. apply backtrack_incl in H. apply closed_find_Some in Hf as [Hin _].
    intros a Ha. apply H in Ha as [<-|Ha]; [assumption|].
    rewrite app_nil_r in Ha. assumption.
  - intros H. injection H as <-. intros a [].
Qed.

Lemma backtrack_not_OutOfBounds p closed fuel :
  forall n acc i, backtrack fuel p closed n acc <> OutOfBounds i.
Proof.
  induction fuel as [|fuel IH]; intros n acc i; simpl;
    destruct (valid_id p (pid n)); simpl; try discriminate.
  destruct (closed_find closed (pid n)); [apply IH | discriminate].
Qed.

Lemma backtrack_runs p costs closed :
  (forall b a, In b closed -> valid_id p (pid b) = true ->
     closed_find closed (pid b) = Some a -> straight_run p costs a b) ->
  forall fuel n acc path,
    In n closed -> runs p costs (n :: acc) ->
    backtrack fuel p closed n acc = Ok path -> runs p costs path.
Proof.
  intros J. induction fuel as [|fuel IH]; intros n acc path Hn Hruns; simpl;
    destruct (valid_id p (pid n)) eqn:Hp; simpl; intros H; try discriminate.
  - now injection H as <-.
  - destruct (closed_find closed (pid n)) as [parent|] eqn:Hf.
    + apply (IH parent (n :: acc)); [| |assumption].
      * now apply closed_find_Some in Hf as [Hin _].
      * split; [now apply (J n parent) | assumption].
    + injection H as <-. exact I.
  - now injection H as <-.
Qed.

Lemma backtrack_Ok_ancestry p closed fuel :
  forall n acc path,
    backtrack fuel p closed n acc = Ok path -> path <> [] ->
    exists pre, path = pre ++ acc /\ ancestry p closed n pre.
Proof.
  induction fuel as [|fuel IH]; intros n acc path; simpl;
    destruct (valid_id p (pid n)) eqn:Hp; simpl; intros H Hne; try discriminate.
  - injection H as <-. exists [n]. split; [reflexivity | now apply ancestry_root].
  - destruct (closed_find closed (pid n)) as [parent|] eqn:Hf.
    + destruct (IH _ _ _ H Hne) as (pre & -> & Ha).
      exists (pre ++ [n]). split; [now rewrite <- app_assoc|].
      eapply ancestry_child; eauto.
    + injection H as <-. now elim Hne.
  - injection H as <-. exists [n]. split; [reflexivity | now apply ancestry_root].
Qed.

(** ** Parents closed before their children *)

Lemma parents_older_find p closed :
  parents_older p closed ->
  forall b, In b closed -> valid_id p (pid b) = true ->
    exists a, closed_find closed (pid b) = Some a.
Proof.
  induction 1 as [|n closed Hc IH Hnew Hpar]; intros b Hb Hp; [contradiction|].
  destruct Hb as [<-|Hb].
  - destruct (Hpar Hp) as [a Ha]. exists a. now apply closed_find_older.
  - destruct (IH b Hb Hp) as [a Ha]. exists a. now apply closed_find_older.
Qed.

Lemma ancestry_drop p m closed :
  parents_older p (m :: closed) ->
  forall n path,
    ancestry p (m :: closed) n path -> In n closed -> ancestry p closed n path.
Proof.
  intros Hwf. inversion Hwf as [|m' c' Hc Hnew Hpar]; subst.
  induction 1 as [n Hp|n parent path Hp Hf Ha IH]; intros Hn.
  - now apply ancestry_root.
  - destruct (parents_older_find p closed Hc n Hn Hp) as [a Hfa].
    pose proof (closed_find_older closed m (pid n) a Hnew Hfa) as Hfa'.
    assert (parent = a) by congruence. subst a.
    eapply ancestry_child; eauto.
    apply IH. now apply closed_find_Some in Hfa as [Hin _].
Qed.

Lemma ancestry_NoDup p closed :
  parents_older p closed ->
  forall n path,
    In n closed -> ancestry p closed n path ->
    NoDup (map id path) /\ incl path closed.
Proof.
  induction 1 as [|m closed Hc IH Hnew Hpar]; intros n path Hn Ha; [contradiction|].
  assert (Hwf : parents_older p (m :: closed)) by (now constructor).
  destruct Hn as [<-|Hn].
  - inversion Ha as [n Hp|n parent path' Hp Hf Ha']; subst.
    + split; [repeat constructor; simpl; tauto|].
      intros a [<-|[]]. now left.
    + destruct (Hpar Hp) as [a Hfa].
      pose proof (closed_find_older closed m (pid m) a Hnew Hfa) as Hfa'.
      assert (parent = a) by congruence. subst a.
      apply closed_find_Some in Hfa as [Hin _].
      apply (ancestry_drop p m closed Hwf) in Ha'; [|assumption].
      destruct (IH parent path' Hin Ha') as [Hnd Hincl].
      split.
      * rewrite map_app. simpl.
        apply NoDup_app; [assumption | repeat constructor; simpl; tauto |].
        intros i Hi [<-|[]]. apply closed_mem_false in Hnew. apply Hnew.
        apply in_map_iff in Hi as [b [<- Hb]]. apply in_map. now apply Hincl.
      * intros b Hb. apply in_app_or in Hb as [Hb|[<-|[]]];
          [right; now apply Hincl | now left].
  - apply (ancestry_drop p m closed Hwf) in Ha; [|assumption].
    destruct (IH n path Hn Ha) as [Hnd Hincl].
    split; [assumption|]. intros b Hb. right. now apply Hincl.
Qed.

(** ** What holds of every state of the loop *)

Section SearchFurther.

Variable pop_top : Node -> list Node -> Node * list Node.
Hypothesis pop_top_perm : forall n l,
  Permutation (n :: l) (fst (pop_top n l) :: snd (pop_top n l)).

Variable fuel_jump : nat.
Variable p : Planner.
Variable costs : list Z.
Variables start goal : Node.

Local Abbreviation iteration' := (iteration pop_top fuel_jump p costs start goal).
Local Abbreviation search' := (search pop_top fuel_jump p costs start goal).
Local Abbreviation plan' := (plan pop_top fuel_jump p costs start goal).
Local Abbreviation reachable' := (reachable pop_top fuel_jump p costs start goal).
Local Abbreviation expansions' := (expansions pop_top fuel_jump p costs start goal).
Local Abbreviation explore' := (explore fuel_jump p costs goal).

Lemma popped_In n l m :
  In m (n :: l) -> In m (fst (pop_top n l) :: snd (pop_top n l)).
Proof. apply Permutation_in. apply pop_top_perm. Qed.

Lemma explored_open current closed jp_list jp :
  explore' current closed getMotion = Ok jp_list -> In jp jp_list ->
  valid_id p (id jp) = true /\ blocked p costs (id jp) = Ok false /\
  pid jp = id current /\ straight_run p costs current jp.
Proof.
  intros He Hjp.
  destruct (explore_nodes _ _ _ _ _ _ _ _ He jp Hjp)
    as (m & r & Hm & Hj & Hid & _ & ->). cbn [id pid x y].
  destruct (jump_result _ _ _ _ _ _ _ Hj) as [->|(Hv & Hb & _)];
    [now elim Hid|].
  split; [assumption|]. split; [assumption|]. split; [reflexivity|].
  destruct (jump_run _ _ _ _ _ _ _ Hj) as [->|(k & Hk & Hx & Hy & _ & _ & Hrun)];
    [now elim Hid|].
  exists m, k. auto.
Qed.

(** The trace starts with the start, holds every open and closed node, and
    every node of it but the start is an open cell of valid index. *)
Lemma reachable_trace st :
  reachable' st ->
  hd_error (expand st) = Some start /\
  incl (open_list st) (expand st) /\
  incl (closed_list st) (expand st) /\
  forall n, In n (expand st) ->
    n = start \/ (valid_id p (id n) = true /\ blocked p costs (id n) = Ok false).
Proof.
  induction 1 as [|st st' _ IH Hit].
  - simpl. split; [reflexivity|]. split; [apply incl_refl|].
    split; [intros a []|]. intros n [<-|[]]. now left.
  - destruct IH as (Hhd & Hopen & Hclosed & Hcells).
    apply iteration_Continue in Hit as (n & l & Ho & Hcase). cbv zeta in Hcase.
    assert (Hpop : forall m, In m (fst (pop_top n l) :: snd (pop_top n l)) ->
                             In m (expand st)).
    { intros m Hm. apply Hopen. rewrite Ho. now apply (pop_top_In pop_top). }
    destruct Hcase as [[_ ->]|(_ & _ & jps & He & ->)]; simpl.
    + split; [assumption|]. split; [|split; assumption].
      intros m Hm. apply Hpop. now right.
    + destruct (push_all_trace goal jps (snd (pop_top n l)) (expand st))
        as (H1 & H2 & H3 & H4).
      split; [rewrite H3; now apply hd_error_app|].
      split; [apply H4; intros m Hm; apply Hpop; now right|].
      split.
      * intros m [<-|Hm]; apply H1; [apply Hpop; now left | now apply Hclosed].
      * intros m Hm. apply H2 in Hm as [Hm|Hm]; [now apply Hcells|].
        right. destruct (explored_open _ _ _ _ He Hm) as (Hv & Hb & _). auto.
Qed.

Lemma reachable_no_goal_closed st :
  reachable' st -> forall n, In n (closed_list st) -> node_eqb n goal = false.
Proof.
  induction 1 as [|st st' _ IH Hit]; [intros n []|].
  apply iteration_Continue in Hit as (n & l & _ & Hcase). cbv zeta in Hcase.
  destruct Hcase as [[_ ->]|(_ & Hg & jps & _ & ->)]; simpl; [assumption|].
  intros m [<-|Hm]; [assumption | now apply IH].
Qed.

(** Every closed node with a valid parent id has its parent in the closed
    list and lies on a straight run of open cells from it; an open node is
    the start or such a child. *)
Lemma reachable_runs st :
  valid_id p (pid start) = false ->
  reachable' st ->
  (forall b, In b (closed_list st) -> valid_id p (pid b) = true ->
     exists a, closed_find (closed_list st) (pid b) = Some a /\
               straight_run p costs a b) /\
  (forall b, In b (open_list st) ->
     b = start \/
     exists a, closed_find (closed_list st) (pid b) = Some a /\
               straight_run p costs a b).
Proof.
  intros Hroot. induction 1 as [|st st' _ IH Hit].
  - simpl. split; [intros b []|]. intros b [<-|[]]. now left.
  - destruct IH as (Hclosed & Hopen).
    apply iteration_Continue in Hit as (n & l & Ho & Hcase). cbv zeta in Hcase.
    assert (Hpop : forall b, In b (fst (pop_top n l) :: snd (pop_top n l)) ->
              b = start \/
              exists a, closed_find (closed_list st) (pid b) = Some a /\
                        straight_run p costs a b).
    { intros b Hb. apply Hopen. rewrite Ho. now apply (pop_top_In pop_top). }
    destruct Hcase as [[_ ->]|(Hc & _ & jps & He & ->)]; simpl.
    + split; [assumption|]. intros b Hb. apply Hpop. now right.
    + set (current := fst (pop_top n l)) in *.
      assert (Hlift : forall b,
                (exists a, closed_find (closed_list st) (pid b) = Some a /\
                           straight_run p costs a b) ->
                exists a, closed_find (current :: closed_list st) (pid b) = Some a /\
                          straight_run p costs a b).
      { intros b (a & Hf & Hr). exists a. split; [|assumption].
        now apply closed_find_older. }
      split.
      * intros b [<-|Hb] Hp.
        -- destruct (Hpop current) as [Hs|Hs]; [now left | | now apply Hlift].
           rewrite Hs in Hp. congruence.
        -- apply Hlift. now apply Hclosed.
      * intros b Hb. apply push_all_In in Hb as [Hb|Hb].
        -- destruct (Hpop b) as [Hs|Hs]; [now right | now left |].
           right. now apply Hlift.
        -- right. destruct (explored_open _ _ _ _ He Hb) as (_ & _ & Hpid & Hrun).
           exists current. split; [|assumption].
           rewrite Hpid. apply closed_find_head.
Qed.

Lemma reachable_parents_older st :
  valid_id p (pid start) = false ->
  reachable' st -> parents_older p (closed_list st).
Proof.
  intros Hroot. induction 1 as [|st st' Hr IH Hit]; [constructor|].
  destruct (reachable_runs st Hroot Hr) as [_ Hopen].
  apply iteration_Continue in Hit as (n & l & Ho & Hcase). cbv zeta in Hcase.
  destruct Hcase as [[_ ->]|(Hc & _ & jps & _ & ->)]; simpl; [assumption|].
  constructor; [assumption | assumption |].
  intros Hp. destruct (Hopen (fst (pop_top n l))) as [Hs|(a & Hf & _)].
  - rewrite Ho. apply (pop_top_In pop_top); [assumption | now left].
  - rewrite Hs in Hp. congruence.
  - eauto.
Qed.

(** The start is open or closed; and either a node equal to the goal waits
    in the open list, or every jump from a closed node has been made and its
    jump point is closed or open. *)
Lemma reachable_frontier st :
  reachable' st ->
  (In start (open_list st) \/ closed_mem (closed_list st) start = true) /\
  ((exists g, In g (open_list st) /\ node_eqb g goal = true) \/
   (forall n m, In n (closed_list st) -> In m getMotion ->
      exists r, jump fuel_jump p costs goal n m = Ok r /\
        (id r = -1 \/ closed_mem (closed_list st) r = true \/
         exists o, In o (open_list st) /\ id o = id r))).
Proof.
  induction 1 as [|st st' Hr IH Hit].
  - simpl. split; [now left; left|]. right. intros n m [].
  - destruct IH as (Hstart & Hfront).
    pose proof (reachable_no_goal_closed st Hr) as Hng.
    apply iteration_Continue in Hit as (n & l & Ho & Hcase). cbv zeta in Hcase.
    set (current := fst (pop_top n l)) in *.
    set (rest := snd (pop_top n l)) in *.
    assert (Hpop : forall o, In o (open_list st) -> o = current \/ In o rest).
    { intros o Hin. rewrite Ho in Hin. apply popped_In in Hin as [<-|Hin]; auto. }
    assert (Hmem : forall a b, id a = id b ->
              closed_mem (closed_list st) a = closed_mem (closed_list st) b).
    { intros a b E. unfold closed_mem. now rewrite E. }
    destruct Hcase as [[Hc ->]|(Hc & Hg & jps & He & ->)]; simpl.
    + split.
      * destruct Hstart as [Hin|Hin]; [|now right].
        apply Hpop in Hin as [->|Hin]; [now right | now left].
      * destruct Hfront as [(g & Hgin & Hgg)|Hfront].
        -- left. exists g. split; [|assumption].
           apply Hpop in Hgin as [->|Hgin]; [|assumption].
           apply closed_mem_true in Hc. apply in_map_iff in Hc as [c [Hid Hcin]].
           apply Hng in Hcin. unfold node_eqb in *. rewrite Hid in Hcin. congruence.
        -- right. intros a m Ha Hm.
           destruct (Hfront a m Ha Hm) as (r & Hj & Hcase).
           exists r. split; [assumption|].
           destruct Hcase as [Hi|[Hi|(o & Hoin & Hoid)]]; auto.
           apply Hpop in Hoin as [->|Hoin]; [|eauto].
           right. left. rewrite <- (Hmem _ _ Hoid). assumption.
    + assert (Hmem' : forall a, closed_mem (closed_list st) a = true ->
                closed_mem (current :: closed_list st) a = true).
      { intros a Ha. apply closed_mem_true. apply closed_mem_true in Ha.
        simpl. now right. }
      assert (Hcur : forall a, id a = id current ->
                closed_mem (current :: closed_list st) a = true).
      { intros a Ha. apply closed_mem_true. simpl. left. congruence. }
      split.
      * destruct Hstart as [Hin|Hin]; [|right; now apply Hmem'].
        apply Hpop in Hin as [->|Hin]; [right; now apply Hcur|].
        left. now apply push_all_keeps.
      * destruct Hfront as [(g & Hgin & Hgg)|Hfront].
        { left. exists g. split; [|assumption].
          apply Hpop in Hgin as [->|Hgin]; [congruence|].
          now apply push_all_keeps. }
        destruct (push_all_complete goal jps rest (expand st)) as [Hearly|Hall];
          [now left|right].
        intros a m Ha Hm.
        destruct Ha as [<-|Ha].
        -- destruct (explore_jumps _ _ _ _ _ _ _ _ He m Hm) as (r & Hj & Hcase).
           exists r. split; [assumption|].
           destruct Hcase as [Hi|[Hi|(jp & Hjp & Hid)]]; auto.
           right. right. exists jp. split; [now apply Hall | assumption].
        -- destruct (Hfront a m Ha Hm) as (r & Hj & Hcase).
           exists r. split; [assumption|].
           destruct Hcase as [Hi|[Hi|(o & Hoin & Hoid)]]; auto.
           apply Hpop in Hoin as [->|Hoin].
           ++ right. left. now apply Hcur.
           ++ right. right. exists o. split; [now apply push_all_keeps | assumption].
Qed.

Lemma expansions_were_open fuel :
  forall st n,
    reachable' st -> In n (expansions' fuel st) ->
    exists st', reachable' st' /\ In n (open_list st').
Proof.
  induction fuel as [|fuel IH]; intros st n Hr Hn; simpl in Hn; [contradiction|].
  destruct (open_list st) as [|m l] eqn:Ho; [contradiction|].
  destruct (iteration' st) as [[st'|]| |] eqn:Hit; try contradiction.
  assert (Hr' : reachable' st') by (eapply reach_next; eauto).
  destruct (closed_mem (closed_list st) (fst (pop_top m l))).
  - now apply (IH st').
  - destruct Hn as [<-|Hn]; [|now apply (IH st')].
    exists st. split; [assumption|]. rewrite Ho.
    apply (pop_top_In pop_top); [assumption | now left].
Qed.

(** The closed list with the popped node added, as path reconstruction
    sees it. *)
Lemma popped_runs st n l :
  valid_id p (pid start) = false ->
  reachable' st -> open_list st = n :: l ->
  closed_mem (closed_list st) (fst (pop_top n l)) = false ->
  parents_older p (fst (pop_top n l) :: closed_list st) /\
  forall b a, In b (fst (pop_top n l) :: closed_list st) ->
    valid_id p (pid b) = true ->
    closed_find (fst (pop_top n l) :: closed_list st) (pid b) = Some a ->
    straight_run p costs a b.
Proof.
  intros Hroot Hr Ho Hc.
  destruct (reachable_runs st Hroot Hr) as [Hclosed Hopen].
  set (current := fst (pop_top n l)) in *.
  assert (Hcur : current = start \/
            exists a, closed_find (closed_list st) (pid current) = Some a /\
                      straight_run p costs a current).
  { apply Hopen. rewrite Ho. apply (pop_top_In pop_top); [assumption | now left]. }
  split.
  - constructor; [now apply reachable_parents_older | assumption |].
    intros Hp. destruct Hcur as [Hs|(a & Hf & _)]; [|eauto].
    rewrite Hs in Hp. congruence.
  - intros b a Hb Hp Hf.
    assert (Hex : exists a', closed_find (closed_list st) (pid b) = Some a' /\
                             straight_run p costs a' b).
    { destruct Hb as [<-|Hb]; [|now apply Hclosed].
      destruct Hcur as [Hs|Hex]; [|assumption].
      rewrite Hs in Hp. congruence. }
    destruct Hex as (a' & Hf' & Hrun).
    pose proof (closed_find_older _ _ _ _ Hc Hf') as Hf''.
    assert (a = a') by congruence. now subst a'.
Qed.

(** X6. When the goal cell is an obstacle and the start is not the goal,
    [plan], if it returns, returns found = false with the empty path: no
    node equal to the goal ever enters the open list. *)
Theorem plan_goal_on_obstacle fuel found path e :
  node_eqb start goal = false ->
  blocked p costs (id goal) = Ok true ->
  plan' fuel = Ok (found, path, e) ->
  found = false /\ path = [].
Proof.
  intros Hsg Hblocked H.
  apply search_returns_from in H as (st & Hr & Hit); [|constructor].
  destruct (reachable_trace st Hr) as (_ & Hopen & _ & Hcells).
  apply iteration_Return in Hit
    as [(_ & -> & -> & _)|(n & l & Ho & _ & Hg & _)]; [auto|].
  exfalso. cbv zeta in Hg.
  assert (Hin : In (fst (pop_top n l)) (expand st)).
  { apply Hopen. rewrite Ho. apply (pop_top_In pop_top); [assumption | now left]. }
  destruct (Hcells _ Hin) as [Hs|[_ Hb]].
  - rewrite Hs in Hg. congruence.
  - unfold node_eqb in Hg. apply Z.eqb_eq in Hg. rewrite Hg in Hb. congruence.
Qed.

Lemma returned_path_traced st found path e :
  reachable' st -> iteration' st = Ok (Return found path e) ->
  e = expand st /\ incl path (expand st).
Proof.
  intros Hr Hit.
  destruct (reachable_trace st Hr) as (_ & Hopen & Hclosed & _).
  apply iteration_Return in Hit
    as [(_ & _ & -> & ->)|(n & l & Ho & _ & _ & _ & -> & Hpath)].
  - split; [reflexivity | intros a []].
  - split; [reflexivity|].
    cbv zeta in Hpath. apply convert_incl in Hpath.
    intros a Ha. apply Hpath in Ha as [<-|Ha]; [|now apply Hclosed].
    apply Hopen. rewrite Ho. apply (pop_top_In pop_top); [assumption | now left].
Qed.

(** X7. The expansion trace that [plan] hands back starts with the start
    node and holds every cell of the returned path; every node of it other
    than the start has an id in [0, nx*ny) whose cost was read below the
    obstacle threshold. *)
Theorem plan_expand_trace fuel found path e :
  plan' fuel = Ok (found, path, e) ->
  hd_error e = Some start /\
  incl path e /\
  forall n, In n e ->
    n = start \/ (valid_id p (id n) = true /\ blocked p costs (id n) = Ok false).
Proof.
  intros H.
  apply search_returns_from in H as (st & Hr & Hit); [|constructor].
  destruct (reachable_trace st Hr) as (Hhd & _ & _ & Hcells).
  destruct (returned_path_traced st found path e Hr Hit) as [-> Hincl].
  auto.
Qed.

(** X8. The path that [plan] returns is made of straight runs: each cell
    lies some steps from the one before it along one of the eight motions,
    and every cell stepped on in between, the cell itself included, has an
    index of the grid and a cost below the obstacle threshold. The start
    carries no valid parent. *)
Theorem plan_path_straight_runs fuel found path e :
  valid_id p (pid start) = false ->
  plan' fuel = Ok (found, path, e) ->
  runs p costs path.
Proof.
  intros Hroot H.
  apply search_returns_from in H as (st & Hr & Hit); [|constructor].
  apply iteration_Return in Hit
    as [(_ & _ & -> & _)|(n & l & Ho & Hc & _ & _ & _ & Hpath)]; [exact I|].
  cbv zeta in Hc, Hpath.
  destruct (popped_runs st n l Hroot Hr Ho Hc) as [_ J].
  unfold _convertClosedListToPath in Hpath.
  destruct (closed_find (fst (pop_top n l) :: closed_list st) (id goal))
    as [g|] eqn:Hf.
  - apply closed_find_Some in Hf as [Hin _].
    exact (backtrack_runs p costs _ J _ g [] path Hin I Hpath).
  - injection Hpath as <-. exact I.
Qed.

(** X9. When [plan] returns found = false the search is complete: the
    open list is empty, the start is closed, and from every closed node the
    jump along each of the eight motions has returned the sentinel or a node
    whose id is closed. *)
Theorem plan_failure_exhaustive fuel path e :
  plan' fuel = Ok (false, path, e) ->
  exists st,
    reachable' st /\ open_list st = [] /\
    closed_mem (closed_list st) start = true /\
    forall n m, In n (closed_list st) -> In m getMotion ->
      exists r, jump fuel_jump p costs goal n m = Ok r /\
        (id r = -1 \/ closed_mem (closed_list st) r = true).
Proof.
  intros H.
  apply search_returns_from in H as (st & Hr & Hit); [|constructor].
  apply iteration_Return in Hit
    as [(Ho & _)|(n & l & _ & _ & _ & Hfound & _)]; [|discriminate].
  destruct (reachable_frontier st Hr) as (Hstart & Hfront).
  exists st. rewrite Ho in *.
  split; [assumption|]. split; [reflexivity|]. split.
  - destruct Hstart as [[]|Hs]. assumption.
  - destruct Hfront as [(g & [] & _)|Hfront].
    intros a m Ha Hm. destruct (Hfront a m Ha Hm) as (r & Hj & Hcase).
    exists r. split; [assumption|].
    destruct Hcase as [Hi|[Hi|(o & [] & _)]]; auto.
Qed.

(** X10. The path that [plan] returns visits no cell twice: the ids of its
    nodes are pairwise different. The start carries no valid parent. *)
Theorem plan_path_no_repeat fuel found path e :
  valid_id p (pid start) = false ->
  plan' fuel = Ok (found, path, e) ->
  NoDup (map id path).
Proof.
  intros Hroot H.
  apply search_returns_from in H as (st & Hr & Hit); [|constructor].
  apply iteration_Return in Hit
    as [(_ & _ & -> & _)|(n & l & Ho & Hc & _ & _ & _ & Hpath)]; [constructor|].
  cbv zeta in Hc, Hpath.
  destruct (popped_runs st n l Hroot Hr Ho Hc) as [Hwf _].
  unfold _convertClosedListToPath in Hpath.
  destruct (closed_find (fst (pop_top n l) :: closed_list st) (id goal))
    as [g|] eqn:Hf; [|injection Hpath as <-; constructor].
  destruct path as [|a path]; [constructor|].
  apply backtrack_Ok_ancestry in Hpath as (pre & Hpre & Ha); [|discriminate].
  rewrite app_nil_r in Hpre. subst pre.
  apply closed_find_Some in Hf as [Hin _].
  now apply (ancestry_NoDup p _ Hwf g (a :: path) Hin Ha).
Qed.

(** X11. A search expands at most nx*ny nodes, whatever the number of
    passes: the nodes expanded have pairwise different ids, all in
    [0, nx*ny). The start is a cell of the grid. *)
Theorem plan_expansions_bounded fuel :
  valid_id p (id start) = true ->
  Z.of_nat (length (expansions' fuel (initial start))) <= ns_ p.
Proof.
  intros Hs. pose proof (proj1 (valid_id_range _ _) Hs) as Hns.
  rewrite <- (length_map id). apply NoDup_bounded_length; [lia| |].
  - apply expansions_fresh. constructor.
  - intros i Hi. apply in_map_iff in Hi as [n [<- Hn]].
    apply valid_id_range.
    destruct (expansions_were_open fuel (initial start) n) as (st & Hr & Hin);
      [constructor | assumption |].
    destruct (reachable_trace st Hr) as (_ & Hopen & _ & Hcells).
    destruct (Hcells n (Hopen n Hin)) as [->|[Hv _]]; assumption.
Qed.

End SearchFurther.

(** ** The search inside an outlined grid *)

Lemma explore_OutOfBounds fuel_jump p costs goal current closed motions i :
  explore fuel_jump p costs goal current closed motions = OutOfBounds i ->
  exists m, In m motions /\ jump fuel_jump p costs goal current m = OutOfBounds i.
Proof.
  induction motions as [|m motions IH]; simpl; intros H; [discriminate|].
  apply bind_OutOfBounds in H as [H|(r & Hr & H)].
  - exists m. auto.
  - apply bind_OutOfBounds in H as [H|(rest & _ & H)].
    + destruct (IH H) as (m' & Hm' & Hj). exists m'. auto.
    + destruct (negb (id r =? -1) && negb (closed_mem closed r)); discriminate.
Qed.

Section SearchOutlined.

Variable pop_top : Node -> list Node -> Node * list Node.
Hypothesis pop_top_perm : forall n l,
  Permutation (n :: l) (fst (pop_top n l) :: snd (pop_top n l)).

Variable fuel_jump : nat.
Variable p : Planner.
Variable costs : list Z.
Variables start goal : Node.

Hypothesis costs_length : grid_costs p costs.
Hypothesis costs_outlined : outlined p costs.
Hypothesis start_interior : interior p (x start) (y start).

Local Abbreviation iteration'' := (iteration pop_top fuel_jump p costs start goal).
Local Abbreviation search'' := (search pop_top fuel_jump p costs start goal).
Local Abbreviation plan'' := (plan pop_top fuel_jump p costs start goal).
Local Abbreviation reachable'' := (reachable pop_top fuel_jump p costs start goal).

Lemma reachable_interior st :
  reachable'' st -> forall n, In n (expand st) -> interior p (x n) (y n).
Proof.
  induction 1 as [|st st' Hr IH Hit].
  - intros n [<-|[]]. assumption.
  - destruct (reachable_trace pop_top pop_top_perm _ _ _ _ _ st Hr)
      as (_ & Hopen & _).
    apply iteration_Continue in Hit as (n & l & Ho & Hcase). cbv zeta in Hcase.
    destruct Hcase as [[_ ->]|(_ & _ & jps & He & ->)]; simpl; [assumption|].
    intros m Hm.
    apply (push_all_trace goal jps (snd (pop_top n l)) (expand st)) in Hm
      as [Hm|Hm]; [now apply IH|].
    destruct (explore_nodes _ _ _ _ _ _ _ _ He m Hm)
      as (d & r & Hd & Hj & Hid & _ & ->). cbn [x y].
    assert (Hcur : interior p (x (fst (pop_top n l))) (y (fst (pop_top n l)))).
    { apply IH, Hopen. rewrite Ho.
      apply (pop_top_In pop_top); [assumption | now left]. }
    destruct (jump_outlined_result p costs goal fuel_jump _ d _
                costs_length costs_outlined Hcur (getMotion_unit d Hd) Hj)
      as (r' & Hr' & Hprop); [discriminate|].
    injection Hr' as <-. destruct Hprop as [->|Hin]; [now elim Hid | assumption].
Qed.

Lemma search_OutOfBounds fuel :
  forall st i,
    reachable'' st -> search'' fuel st = OutOfBounds i ->
    exists st', reachable'' st' /\ iteration'' st' = OutOfBounds i.
Proof.
  induction fuel as [|fuel IH]; intros st i Hr H; [discriminate|].
  simpl in H. apply bind_OutOfBounds in H as [H|(r & Hit & H)]; [eauto|].
  destruct r as [st'|found path e]; [|discriminate].
  apply (IH st'); [|assumption]. eapply reach_next; eauto.
Qed.

(** X12. Inside an outlined grid (border cells obstacles, one byte per
    cell) a search from an interior start never reads outside the cost
    array, and every node of the expansion trace and of the path it returns
    is an interior cell: the walk never crosses the side of the grid. *)
Theorem plan_inside_outlined fuel :
  (forall i, plan'' fuel <> OutOfBounds i) /\
  (forall found path e,
     plan'' fuel = Ok (found, path, e) ->
     (forall n, In n e -> interior p (x n) (y n)) /\
     (forall n, In n path -> interior p (x n) (y n))).
Proof.
  split.
  - intros i H.
    apply search_OutOfBounds in H as (st & Hr & Hit); [|constructor].
    destruct (reachable_trace pop_top pop_top_perm _ _ _ _ _ st Hr)
      as (_ & Hopen & _).
    pose proof (reachable_interior st Hr) as Hint.
    unfold iteration in Hit.
    destruct (open_list st) as [|n l] eqn:Ho; [discriminate|].
    assert (Hcur : interior p (x (fst (pop_top n l))) (y (fst (pop_top n l)))).
    { apply Hint, Hopen. apply (pop_top_In pop_top); [assumption | now left]. }
    destruct (pop_top n l) as [current rest]. simpl in Hcur.
    destruct (closed_mem (closed_list st) current); [discriminate|].
    destruct (node_eqb current goal).
    + apply bind_OutOfBounds in Hit as [Hit|(path & _ & Hit)]; [|discriminate].
      unfold _convertClosedListToPath in Hit.
      destruct (closed_find (closed_insert (closed_list st) current) (id goal));
        [|discriminate].
      now apply backtrack_not_OutOfBounds in Hit.
    + apply bind_OutOfBounds in Hit as [Hit|(jps & _ & Hit)].
      * apply explore_OutOfBounds in Hit as (m & Hm & Hj).
        destruct (jump_outlined_result p costs goal fuel_jump current m _
                    costs_length costs_outlined Hcur (getMotion_unit m Hm) Hj)
          as (r & Hr' & _); discriminate.
      * destruct (push_all goal jps rest (expand st)). discriminate.
  - intros found path e H.
    apply search_returns_from in H as (st & Hr & Hit); [|constructor].
    pose proof (reachable_interior st Hr) as Hint.
    destruct (returned_path_traced pop_top pop_top_perm _ _ _ _ _ st _ _ _ Hr Hit)
      as [-> Hincl].
    split; [assumption|]. intros n Hn. now apply Hint, Hincl.
Qed.

End SearchOutlined.

(** ** The further properties on the walled grid *)

(** The goal (4,4) is a cell of the wall. *)
Lemma plan_goal_on_obstacle_witness : false = false /\ @nil Node = [].
Proof.
  apply (plan_goal_on_obstacle pop_min pop_min_perm 8 (planner 5 5) walled_grid
           (cell (planner 5 5) 1 1) (cell (planner 5 5) 4 4)
           2 false [] [cell (planner 5 5) 1 1]).
  - reflexivity.
  - reflexivity.
  - reflexivity.
Defined.

(** From (1,1) to the goal (2,3), through (2,2). *)
Lemma plan_expand_trace_witness :
  hd_error [cell (planner 5 5) 1 1; mkNode 2 2 1 12 6; mkNode 2 3 0 17 12]
  = Some (cell (planner 5 5) 1 1) /\
  incl [cell (planner 5 5) 1 1; mkNode 2 2 1 12 6; mkNode 2 3 0 17 12]
       [cell (planner 5 5) 1 1; mkNode 2 2 1 12 6; mkNode 2 3 0 17 12] /\
  forall n,
    In n [cell (planner 5 5) 1 1; mkNode 2 2 1 12 6; mkNode 2 3 0 17 12] ->
    n = cell (planner 5 5) 1 1 \/
    (valid_id (planner 5 5) (id n) = true /\
     blocked (planner 5 5) walled_grid (id n) = Ok false).
Proof.
  apply (plan_expand_trace pop_min pop_min_perm 8 (planner 5 5) walled_grid
           (cell (planner 5 5) 1 1) (cell (planner 5 5) 2 3) 5 true).
  reflexivity.
Defined.

Lemma plan_path_straight_runs_witness :
  runs (planner 5 5) walled_grid
    [cell (planner 5 5) 1 1; mkNode 2 2 1 12 6; mkNode 2 3 0 17 12].
Proof.
  apply (plan_path_straight_runs pop_min pop_min_perm 8 (planner 5 5) walled_grid
           (cell (planner 5 5) 1 1) (cell (planner 5 5) 2 3) 5 true _
           [cell (planner 5 5) 1 1; mkNode 2 2 1 12 6; mkNode 2 3 0 17 12]).
  - reflexivity.
  - reflexivity.
Defined.

Lemma plan_failure_exhaustive_witness :
  exists st,
    reachable pop_min 8 (planner 5 5) walled_grid
      (cell (planner 5 5) 1 1) (cell (planner 5 5) 4 4) st /\
    open_list st = [] /\
    closed_mem (closed_list st) (cell (planner 5 5) 1 1) = true /\
    forall n m, In n (closed_list st) -> In m getMotion ->
      exists r, jump 8 (planner 5 5) walled_grid (cell (planner 5 5) 4 4) n m = Ok r /\
        (id r = -1 \/ closed_mem (closed_list st) r = true).
Proof.
  apply (plan_failure_exhaustive pop_min pop_min_perm 8 (planner 5 5) walled_grid
           (cell (planner 5 5) 1 1) (cell (planner 5 5) 4 4)
           2 [] [cell (planner 5 5) 1 1]).
  reflexivity.
Defined.

Lemma plan_path_no_repeat_witness :
  NoDup (map id [cell (planner 5 5) 1 1; mkNode 2 2 1 12 6; mkNode 2 3 0 17 12]).
Proof.
  apply (plan_path_no_repeat pop_min pop_min_perm 8 (planner 5 5) walled_grid
           (cell (planner 5 5) 1 1) (cell (planner 5 5) 2 3) 5 true _
           [cell (planner 5 5) 1 1; mkNode 2 2 1 12 6; mkNode 2 3 0 17 12]).
  - reflexivity.
  - reflexivity.
Defined.

Lemma plan_expansions_bounded_witness :
  Z.of_nat (length (expansions pop_min 8 (planner 5 5) walled_grid
                      (cell (planner 5 5) 1 1) (cell (planner 5 5) 2 3) 4
                      (initial (cell (planner 5 5) 1 1))))
  <= ns_ (planner 5 5).
Proof.
  apply (plan_expansions_bounded pop_min pop_min_perm 8 (planner 5 5) walled_grid
           (cell (planner 5 5) 1 1) (cell (planner 5 5) 2 3) 4).
  reflexivity.
Defined.

Lemma plan_inside_outlined_witness :
  (forall n,
     In n [cell (planner 5 5) 1 1; mkNode 2 2 1 12 6; mkNode 2 3 0 17 12] ->
     interior (planner 5 5) (x n) (y n)) /\
  (forall n,
     In n [cell (planner 5 5) 1 1; mkNode 2 2 1 12 6; mkNode 2 3 0 17 12] ->
     interior (planner 5 5) (x n) (y n)).
Proof.
  apply (proj2 (plan_inside_outlined pop_min pop_min_perm 8 (planner 5 5)
                  walled_grid (cell (planner 5 5) 1 1) (cell (planner 5 5) 2 3)
                  eq_refl walled_grid_outlined
                  ltac:(unfold interior; simpl; lia) 5) true).
  reflexivity.
Defined.

(** * A search that does not return *)

(** In the one-column grid of six cells the index of a cell is the sum of
    its coordinates. *)
Lemma lane_index cx cy : grid2Index (planner 1 6) cx cy = cx + cy.
Proof. unfold grid2Index, planner. cbn [nx_]. lia. Qed.

Lemma lane_step_id goal point dx dy :
  id (step (planner 1 6) goal point (mkNode dx dy 0 0 0))
  = x point + y point + dx + dy.
Proof. unfold step, node_add. cbn [id x y]. rewrite lane_index. lia. Qed.

Lemma lane_probe fuel goal point dx dy :
  x point + y point + dx + dy = 1 \/ x point + y point + dx + dy = 3 \/
  x point + y point + dx + dy = 4 ->
  jump (S fuel) (planner 1 6) lane_grid goal point (mkNode dx dy 0 0 0) = Ok sentinel.
Proof.
  intros H. apply jump_index_blocked. rewrite lane_step_id.
  destruct H as [-> |[-> | ->]]; reflexivity.
Qed.

Lemma lane_no_forced_neighbor point :
  x point + y point = 2 ->
  detectForceNeighbor (planner 1 6) lane_grid point (mkNode 1 (-1) 0 0 0) = Ok false.
Proof.
  intros H. unfold detectForceNeighbor, forced_either, forced_by.
  cbn [x y fst snd]. simpl negb. cbn [andb].
  rewrite !lane_index.
  replace (x point - 1 + y point) with 1 by lia.
  replace (x point - 1 + (y point + -1)) with 0 by lia.
  replace (x point + (y point - -1)) with 3 by lia.
  replace (x point + 1 + (y point - -1)) with 4 by lia.
  reflexivity.
Qed.

Lemma lane_walk_never_ends fuel :
  forall point, x point + y point = 2 ->
    jump fuel (planner 1 6) lane_grid (cell (planner 1 6) 0 5) point
         (mkNode 1 (-1) 0 0 0) = OutOfFuel.
Proof.
  induction fuel as [|fuel IH]; intros point H; [reflexivity|].
  set (goal := cell (planner 1 6) 0 5).
  assert (Hid : id (step (planner 1 6) goal point (mkNode 1 (-1) 0 0 0)) = 2)
    by (rewrite lane_step_id; lia).
  assert (Hxy : x (step (planner 1 6) goal point (mkNode 1 (-1) 0 0 0))
                + y (step (planner 1 6) goal point (mkNode 1 (-1) 0 0 0)) = 2)
    by (unfold step, node_add; cbn [x y]; lia).
  rewrite jump_diagonal_unfold.
  - destruct fuel as [|fuel]; [reflexivity|].
    cbn [x y].
    rewrite (lane_probe fuel goal _ 1 0) by lia.
    cbn [bind]. change (negb (id sentinel =? -1)) with false. cbv iota.
    rewrite (lane_probe fuel goal _ 0 (-1)) by lia.
    cbn [bind]. change (negb (id sentinel =? -1)) with false. cbv iota.
    rewrite lane_no_forced_neighbor by assumption.
    cbn [bind]. apply IH. assumption.
  - discriminate.
  - discriminate.
  - rewrite Hid. reflexivity.
  - rewrite Hid. reflexivity.
  - unfold node_eqb. rewrite Hid. reflexivity.
Qed.

Lemma lane_explore_never_ends fuel_jump closed :
  explore fuel_jump (planner 1 6) lane_grid (cell (planner 1 6) 0 5)
    (cell (planner 1 6) 0 2) closed getMotion = OutOfFuel.
Proof.
  destruct fuel_jump as [|fuel_jump]; [reflexivity|].
  unfold getMotion. cbn [explore].
  rewrite (lane_probe fuel_jump _ (cell (planner 1 6) 0 2) 0 1) by (cbn; lia).
  cbn [bind].
  rewrite (lane_probe fuel_jump _ (cell (planner 1 6) 0 2) 1 0) by (cbn; lia).
  cbn [bind].
  rewrite (lane_probe fuel_jump _ (cell (planner 1 6) 0 2) 0 (-1)) by (cbn; lia).
  cbn [bind].
  rewrite (lane_probe fuel_jump _ (cell (planner 1 6) 0 2) (-1) 0) by (cbn; lia).
  cbn [bind].
  rewrite (lane_probe fuel_jump _ (cell (planner 1 6) 0 2) 1 1) by (cbn; lia).
  cbn [bind].
  rewrite (lane_walk_never_ends (S fuel_jump) (cell (planner 1 6) 0 2))
    by reflexivity.
  reflexivity.
Qed.

(** C4, where the walk crosses the side of the grid. On the one-column grid
    of six cells, start (0,2) and goal (0,5) both open cells of the grid,
    the first expansion jumps along (+1,-1), the index stays 2, and [plan]
    never returns, neither with a path nor with found = false, whatever the
    fuel of the loop and of the recursion. On the open 5x5 grid, from (0,0)
    to (4,4), the first expansion reads the cost array at index -4. On the
    2x3 grid whose middle row is a wall, with the queue that takes the least
    [h_cost] first, [plan] returns found = true from (0,0) to (0,2) with a
    path whose middle node is (-1,1), no cell of the grid. *)
Theorem plan_neither_outcome :
  in_grid (planner 1 6) 0 2 /\ in_grid (planner 1 6) 0 5 /\
  open_at (planner 1 6) lane_grid 0 2 /\ open_at (planner 1 6) lane_grid 0 5 /\
  (forall fuel fuel_jump,
     plan pop_min fuel_jump (planner 1 6) lane_grid
          (cell (planner 1 6) 0 2) (cell (planner 1 6) 0 5) fuel = OutOfFuel) /\
  plan pop_min 10 (planner 5 5) (repeat 0 25)
       (cell (planner 5 5) 0 0) (cell (planner 5 5) 4 4) 50 = OutOfBounds (-4) /\
  plan pop_min 2 (planner 2 3) split_grid
       (cell (planner 2 3) 0 0) (cell (planner 2 3) 0 2) 3
  = Ok (true,
        [cell (planner 2 3) 0 0; mkNode (-1) 1 2 1 0; mkNode 0 2 0 4 1],
        [cell (planner 2 3) 0 0; mkNode 1 0 5 1 0; mkNode (-1) 1 2 1 0;
         mkNode 0 2 0 4 1]).
Proof.
  split; [unfold in_grid; simpl; lia|].
  split; [unfold in_grid; simpl; lia|].
  split; [exists 0; split; reflexivity|].
  split; [exists 0; split; reflexivity|].
  split; [|split; reflexivity].
  intros fuel fuel_jump. destruct fuel as [|fuel]; [reflexivity|].
  unfold plan. cbn [search].
  replace (iteration pop_min fuel_jump (planner 1 6) lane_grid
             (cell (planner 1 6) 0 2) (cell (planner 1 6) 0 5)
             (initial (cell (planner 1 6) 0 2)))
    with (@OutOfFuel progress); [reflexivity|].
  unfold iteration, initial. cbn [open_list closed_list expand pop_min].
  change (closed_mem [] (cell (planner 1 6) 0 2)) with false.
  change (node_eqb (cell (planner 1 6) 0 2) (cell (planner 1 6) 0 5)) with false.
  cbv iota. now rewrite lane_explore_never_ends.
Qed.
